(** * SignerVer02 tools: a shallow embedding of [extract_params.py] and
    [update_signer.py], and the properties of their core operations.

    Conventions of the embedding.
    - A Python [bytes] or [bytearray] value is a [list byte]; a Python [str]
      is the list of its code points.
    - A [file_path] argument is represented by what reading that file gives:
      [Some data], or [None] when [open]/[read] raises.
    - [print] calls are dropped; where the source tells its failure branches
      apart only by the message it prints, the branch taken is kept in the
      result type.
    - The [while True] loop of [replace_all_occurrences] runs on fuel. *)

From Stdlib Require Import Strings.Byte NArith Lia Sorted.
From stdpp Require Import base list.

Local Open Scope nat_scope.

Abbreviation bytes := (list byte).
Abbreviation str := (list N).

(** ** Python primitives used by the two scripts *)
Module Py.

Inductive exn := UnicodeEncodeError.

(** What running a piece of code gives: a value, an exception, or no answer
    within the fuel. *)
Inductive outcome (A : Type) :=
| Return (a : A)
| Raise (e : exn)
| OutOfFuel.
Arguments Return {A} a.
Arguments Raise {A} e.
Arguments OutOfFuel {A}.

Definition bind {A B} (m : outcome A) (k : A -> outcome B) : outcome B :=
  match m with
  | Return a => k a
  | Raise e => Raise e
  | OutOfFuel => OutOfFuel
  end.

(** [not x] for a sequence. *)
Definition falsy {A} (l : list A) : bool :=
  match l with [] => true | _ :: _ => false end.

(** [not x] for an optional sequence ([None] or empty). *)
Definition falsy_opt {A} (o : option (list A)) : bool :=
  match o with None => true | Some l => falsy l end.

(** [data.startswith(pat)] *)
Fixpoint startswith (data pat : bytes) {struct pat} : bool :=
  match pat, data with
  | [], _ => true
  | p :: pat', d :: data' => Byte.eqb p d && startswith data' pat'
  | _ :: _, [] => false
  end.

(** The scan of [bytes.find]: [data] is the part of the buffer that starts
    at absolute index [i]. *)
Fixpoint find_aux (pat data : bytes) (i : nat) {struct data} : option nat :=
  if startswith data pat then Some i
  else match data with
       | [] => None
       | _ :: rest => find_aux pat rest (S i)
       end.

(** [data.find(pat, start)], with [None] for [-1]. *)
Definition find (data pat : bytes) (start : nat) : option nat :=
  if length data <? start then None
  else find_aux pat (drop start data) start.

(** [data[i:j]] for [0 <= i], [0 <= j]. *)
Definition slice {A} (data : list A) (i j : nat) : list A :=
  take (j - i) (drop i data).

(** [buf[i:j] = v] on a [bytearray], for [0 <= i], [0 <= j]. *)
Definition set_slice {A} (buf : list A) (i j : nat) (v : list A) : list A :=
  take i buf ++ v ++ drop (Nat.max i j) buf.

(** [s.split(b'\x00')[0]]: the bytes before the first NUL. *)
Fixpoint split_nul_first (s : bytes) : bytes :=
  match s with
  | [] => []
  | b :: rest => if Byte.eqb b x00 then [] else b :: split_nul_first rest
  end.

Definition is_ascii (b : byte) : bool := (Byte.to_N b <? 128)%N.

(** [s.decode('ascii', errors='ignore')] *)
Definition decode_ascii_ignore (s : bytes) : str :=
  map Byte.to_N (List.filter is_ascii s).

Definition byte_of_N (n : N) : byte :=
  match Byte.of_N (n mod 256) with Some b => b | None => x00 end.

(** [s.encode('ascii')] *)
Fixpoint encode_ascii (s : str) : outcome bytes :=
  match s with
  | [] => Return []
  | c :: rest =>
      if (c <? 128)%N
      then bind (encode_ascii rest) (fun bs => Return (byte_of_N c :: bs))
      else Raise UnicodeEncodeError
  end.

Definition is_surrogate (c : N) : bool := ((55296 <=? c) && (c <=? 57343))%N.

Definition utf8_char (c : N) : outcome bytes :=
  if (c <? 128)%N then Return [byte_of_N c]
  else if (c <? 2048)%N then
    Return [byte_of_N (192 + c / 64); byte_of_N (128 + c mod 64)]
  else if (c <? 65536)%N then
    if is_surrogate c then Raise UnicodeEncodeError
    else Return [byte_of_N (224 + c / 4096);
                 byte_of_N (128 + (c / 64) mod 64);
                 byte_of_N (128 + c mod 64)]
  else
    Return [byte_of_N (240 + c / 262144);
            byte_of_N (128 + (c / 4096) mod 64);
            byte_of_N (128 + (c / 64) mod 64);
            byte_of_N (128 + c mod 64)].

(** [s.encode('utf-8')] *)
Fixpoint encode_utf8 (s : str) : outcome bytes :=
  match s with
  | [] => Return []
  | c :: rest =>
      bind (utf8_char c) (fun b =>
      bind (encode_utf8 rest) (fun bs => Return (b ++ bs)))
  end.

Definition le16 (u : N) : bytes := [byte_of_N (u mod 256); byte_of_N (u / 256)].

Definition utf16le_char (c : N) : outcome bytes :=
  if (c <? 65536)%N then
    if is_surrogate c then Raise UnicodeEncodeError else Return (le16 c)
  else
    let v := (c - 65536)%N in
    Return (le16 (55296 + v / 1024) ++ le16 (56320 + v mod 1024)).

(** [s.encode('utf-16le')] *)
Fixpoint encode_utf16le (s : str) : outcome bytes :=
  match s with
  | [] => Return []
  | c :: rest =>
      bind (utf16le_char c) (fun b =>
      bind (encode_utf16le rest) (fun bs => Return (b ++ bs)))
  end.

(** Order of [str] values: code point by code point, a proper prefix first. *)
Fixpoint str_compare (a b : str) : comparison :=
  match a, b with
  | [], [] => Eq
  | [], _ :: _ => Lt
  | _ :: _, [] => Gt
  | x :: a', y :: b' =>
      match (x ?= y)%N with
      | Eq => str_compare a' b'
      | c => c
      end
  end.

Definition str_eqb (a b : str) : bool :=
  match str_compare a b with Eq => true | _ => false end.

(** [x in l] for a list of [str]. *)
Definition str_in (x : str) (l : list str) : bool := existsb (str_eqb x) l.

(** One step of building [sorted(set(...))]: put [x] in its place unless it
    is there already. *)
Fixpoint insert_sorted (x : str) (l : list str) : list str :=
  match l with
  | [] => [x]
  | y :: rest =>
      match str_compare x y with
      | Lt => x :: l
      | Eq => l
      | Gt => y :: insert_sorted x rest
      end
  end.

(** [sorted(list(set(l)))] *)
Definition sorted_set (l : list str) : list str :=
  foldr insert_sorted [] l.

End Py.

Import Py.

(** ** Data shared by the two scripts *)

(** The dictionary built by [parse_signer_section]: always the same six keys. *)
Record metadata := {
  signer_version : str;
  number : str;
  device_model : str;
  date : str;
  software_model : str;
  software_version : str
}.

(** What [find_signer_section] gives.  The source returns [(None, None)] at
    four places, told apart by the message printed just before; each has its
    constructor here. *)
Inductive section_lookup :=
| Located (start_pos : nat) (signer_data : bytes)
| ReadFailed
| EmptyFile
| MarkerNotFound
| SectionTooShort.

(** The pair the Python function returns. *)
Definition py_pair (r : section_lookup) : option nat * option bytes :=
  match r with
  | Located start_pos signer_data => (Some start_pos, Some signer_data)
  | _ => (None, None)
  end.

Definition str_of_bytes (s : bytes) : str := map Byte.to_N s.

(** [b'SignerVer02'] *)
Definition signer_pattern : bytes :=
  ["S"; "i"; "g"; "n"; "e"; "r"; "V"; "e"; "r"; "0"; "2"]%byte.

(** ["<empty>"] *)
Definition empty_sentinel : str :=
  Eval cbv in str_of_bytes ["<"; "e"; "m"; "p"; "t"; "y"; ">"]%byte.

Definition section_length : nat := 128.

(** [signer_data[i:j].split(b'\x00')[0].decode('ascii', errors='ignore')] *)
Definition field (signer_data : bytes) (i j : nat) : str :=
  decode_ascii_ignore (split_nul_first (slice signer_data i j)).

(** [x or "<empty>"] *)
Definition or_empty (x : str) : str := if falsy x then empty_sentinel else x.

Definition parse_fields (signer_data : bytes) : metadata :=
  {| signer_version := field signer_data 0 15;
     number := field signer_data 16 31;
     device_model := field signer_data 32 63;
     date := field signer_data 64 78;
     software_model := field signer_data 80 111;
     software_version := or_empty (field signer_data 112 127) |}.

(** ** extract_params.py *)
Module ExtractParams.

Definition find_signer_section (file : option bytes) : section_lookup :=
  match file with
  | None => ReadFailed
  | Some data =>
      if falsy data then EmptyFile
      else match find data signer_pattern 0 with
           | None => MarkerNotFound
           | Some start_pos =>
               let end_pos := start_pos + section_length in
               if length data <? end_pos then SectionTooShort
               else Located start_pos (slice data start_pos end_pos)
           end
  end.

(** [None] is the source's [return None] after the size message. *)
Definition parse_signer_section (signer_data : bytes) : option metadata :=
  if falsy signer_data || (length signer_data <? 128) then None
  else Some (parse_fields signer_data).

(** What a run of [extract_parameters] leaves: the value returned, the
    dictionary dumped to the JSON file and the bytes written to the binary
    file, for each file that was written whole. *)
Record extract_result := {
  extracted : bool;
  json_written : option metadata;
  signer_written : option bytes
}.

(** [output_json] and [output_signer_bin] stand for the two output paths:
    [None] for a path that is not given (or empty), [Some true] when the
    directory is made and the file written, [Some false] when one of the two
    raises.  The text of [json.dump(metadata, f, indent=2)] is represented by
    the dictionary. *)
Definition extract_parameters (image : option bytes)
    (output_json output_signer_bin : option bool) : extract_result :=
  match find_signer_section image with
  | Located pos signer_data =>
      if falsy signer_data
      then {| extracted := false; json_written := None;
              signer_written := None |}
      else
        match parse_signer_section signer_data with
        | None => {| extracted := false; json_written := None;
                     signer_written := None |}
        | Some metadata =>
            match output_json with
            | Some false => {| extracted := false; json_written := None;
                               signer_written := None |}
            | _ =>
                let json :=
                  match output_json with
                  | Some _ => Some metadata
                  | None => None
                  end in
                match output_signer_bin with
                | Some false => {| extracted := false; json_written := json;
                                   signer_written := None |}
                | Some true => {| extracted := true; json_written := json;
                                  signer_written := Some signer_data |}
                | None => {| extracted := true; json_written := json;
                             signer_written := None |}
                end
            end
        end
  | _ => {| extracted := false; json_written := None; signer_written := None |}
  end.

(** The exit status of the script and what it leaves; [image] is [None] for
    a path that does not exist. *)
Definition main (image : option bytes)
    (output_json output_signer : option bool) : nat * extract_result :=
  match image with
  | None => (1, {| extracted := false; json_written := None;
                   signer_written := None |})
  | Some _ =>
      let r := extract_parameters image output_json output_signer in
      (if extracted r then 0 else 1, r)
  end.

End ExtractParams.

(** ** update_signer.py *)
Module UpdateSigner.

Definition find_signer_section (file : option bytes) : section_lookup :=
  match file with
  | None => ReadFailed
  | Some data =>
      if falsy data then EmptyFile
      else match find data signer_pattern 0 with
           | None => MarkerNotFound
           | Some start_pos =>
               let end_pos := start_pos + section_length in
               if length data <? end_pos then SectionTooShort
               else Located start_pos (slice data start_pos end_pos)
           end
  end.

Definition parse_signer_section (signer_data : bytes) : option metadata :=
  if falsy signer_data || negb (length signer_data =? 128) then None
  else Some (parse_fields signer_data).

(** *** replace_all_occurrences *)

(** The list [replacements], built left to right; the encoding names, only
    printed, are left out. *)
Definition replacements (old_model new_model : str)
  : outcome (list (bytes * bytes)) :=
  bind (encode_ascii old_model) (fun oa =>
  bind (encode_ascii new_model) (fun na =>
  bind (encode_utf8 old_model) (fun ou =>
  bind (encode_utf8 new_model) (fun nu =>
  bind (encode_utf16le old_model) (fun ow =>
  bind (encode_utf16le new_model) (fun nw =>
  bind (encode_ascii old_model) (fun oa' =>
  bind (encode_ascii new_model) (fun na' =>
  bind (encode_utf8 old_model) (fun ou' =>
  bind (encode_utf8 new_model) (fun nu' =>
  Return [(oa, na); (ou, nu); (ow, nw);
          (oa' ++ [x00], na' ++ [x00]);
          (ou' ++ [x00], nu' ++ [x00])])))))))))).

(** The [while True] loop of one pass: [data] is searched, [new_data] is
    written. *)
Fixpoint replace_loop (fuel : nat) (data old_bytes new_bytes new_data : bytes)
    (count start : nat) : outcome (bytes * nat) :=
  match fuel with
  | 0 => OutOfFuel
  | S fuel' =>
      match find data old_bytes start with
      | None => Return (new_data, count)
      | Some pos =>
          replace_loop fuel' data old_bytes new_bytes
            (set_slice new_data pos (pos + length new_bytes) new_bytes)
            (count + 1) (pos + length new_bytes)
      end
  end.

(** The [for] loop over [replacements]. *)
Fixpoint replace_passes (fuel : nat) (data : bytes)
    (reps : list (bytes * bytes)) (new_data : bytes) (total_replacements : nat)
    : outcome (bytes * nat) :=
  match reps with
  | [] => Return (new_data, total_replacements)
  | (old_bytes, new_bytes) :: rest =>
      if negb (length old_bytes =? length new_bytes)
      then replace_passes fuel data rest new_data total_replacements
      else
        bind (replace_loop fuel data old_bytes new_bytes new_data 0 0)
          (fun r =>
             let '(new_data', count) := r in
             replace_passes fuel data rest new_data'
               (if 0 <? count then total_replacements + count
                else total_replacements))
  end.

Definition replace_all_occurrences (fuel : nat) (data : bytes)
    (old_model new_model : str) : outcome (bytes * nat) :=
  if falsy old_model || falsy new_model || str_eqb old_model new_model
  then Return (data, 0)
  else bind (replacements old_model new_model)
         (fun reps => replace_passes fuel data reps data 0).

(** *** detect_device_models_in_file *)

Definition is_upper (b : byte) : bool :=
  ((65 <=? Byte.to_N b) && (Byte.to_N b <=? 90))%N.
Definition is_digit (b : byte) : bool :=
  ((48 <=? Byte.to_N b) && (Byte.to_N b <=? 57))%N.
Definition is_upper_or_digit (b : byte) : bool := is_upper b || is_digit b.

(** How many of the first [limit] bytes of [s] satisfy [p], from the left
    and without a gap: the greedy [{..,limit}]. *)
Fixpoint run_length (p : byte -> bool) (limit : nat) (s : bytes) : nat :=
  match limit, s with
  | S k, b :: rest => if p b then S (run_length p k rest) else 0
  | _, _ => 0
  end.

(** The length of the match of
    [[A-Z][0-9]{3}[A-Z]{2}[A-Z0-9]{6,12}] at the start of [s]. *)
Definition match_model (s : bytes) : option nat :=
  match s with
  | c0 :: c1 :: c2 :: c3 :: c4 :: c5 :: rest =>
      if is_upper c0 && is_digit c1 && is_digit c2 && is_digit c3
         && is_upper c4 && is_upper c5
      then let k := run_length is_upper_or_digit 12 rest in
           if 6 <=? k then Some (6 + k) else None
      else None
  | _ => None
  end.

(** [re.findall]: leftmost matches, the scan resuming after each one;
    [skip] counts the bytes of the last match still to be passed. *)
Fixpoint findall_from (skip : nat) (s : bytes) : list bytes :=
  match s with
  | [] => []
  | _ :: rest =>
      match skip with
      | S k => findall_from k rest
      | 0 =>
          match match_model s with
          | Some n => take n s :: findall_from (n - 1) rest
          | None => findall_from 0 rest
          end
      end
  end.

Definition findall (data : bytes) : list bytes := findall_from 0 data.

(** The candidate list [models]. *)
Definition models_of (data : bytes) : list str :=
  sorted_set
    (map decode_ascii_ignore
       (List.filter (fun m => (10 <=? length m) && (length m <=? 20))
          (findall data))).

(** The value of [signer_model] after the lookup of the record. *)
Definition signer_model_of (file : option bytes) : option str :=
  match find_signer_section file with
  | Located pos signer_data =>
      if falsy signer_data then None
      else match parse_signer_section signer_data with
           | Some metadata =>
               if falsy (device_model metadata) then None
               else Some (device_model metadata)
           | None => None
           end
  | _ => None
  end.

(** [m and m in models] *)
Definition truthy_in (m : option str) (models : list str) : bool :=
  match m with
  | Some s => negb (falsy s) && str_in s models
  | None => false
  end.

(** [[m for m in models if m != x]] *)
Definition others (x : str) (models : list str) : list str :=
  List.filter (fun m => negb (str_eqb m x)) models.

(** The [str] held by a variable known not to be [None]. *)
Definition the_str (m : option str) : str :=
  match m with Some s => s | None => [] end.

Definition detect_device_models_in_file (file : option bytes)
    (preferred_model : option str) : list str :=
  match file with
  | None => []
  | Some data =>
      let models := models_of data in
      let signer_model := signer_model_of file in
      if truthy_in preferred_model models then
        the_str preferred_model :: others (the_str preferred_model) models
      else if truthy_in signer_model models then
        the_str signer_model :: others (the_str signer_model) models
      else if negb (falsy models) then models
      else []
  end.

(** *** update_single_file *)

Inductive patch_result :=
| Patched (new_data : bytes)
| SizeMismatch.

(** The replacement of the record: the size test and the slice assignment
    [new_data[old_pos:old_pos + 128] = new_signer_data]. *)
Definition patch (buffer : bytes) (offset : nat) (new_record : bytes)
  : patch_result :=
  if negb (length new_record =? 128) then SizeMismatch
  else Patched (set_slice buffer offset (offset + 128) new_record).

(** An entry of the list [modifications]. *)
Inductive modification :=
| SignerAt (old_pos : nat)
| ModelTimes (total_replacements : nat).

(** What a run of [update_single_file] leaves: the value returned and the
    bytes written to the file, if it was opened for writing. *)
Record update_result := {
  success : bool;
  written : option bytes
}.

Definition failed : update_result := {| success := false; written := None |}.

(** The last step: write when there is something to report. *)
Definition write_back (new_data : bytes) (modifications : list modification)
  : update_result :=
  if negb (falsy modifications)
  then {| success := true; written := Some new_data |}
  else failed.

(** The model step, entered with the buffer and the modifications so far.
    An exception of [replace_all_occurrences] is caught by the function's
    [except] and gives [False]. *)
Definition model_step (fuel : nat) (new_data : bytes)
    (modifications : list modification)
    (new_device_model old_device_model : option str)
    (experimental_model_replace : bool) : outcome update_result :=
  if experimental_model_replace
     && negb (falsy_opt old_device_model)
     && negb (falsy_opt new_device_model)
     && negb (str_eqb (the_str old_device_model) (the_str new_device_model))
  then
    match replace_all_occurrences fuel new_data
            (the_str old_device_model) (the_str new_device_model) with
    | Return (new_data', total_replacements) =>
        Return (write_back new_data'
                  (if 0 <? total_replacements
                   then modifications ++ [ModelTimes total_replacements]
                   else modifications))
    | Raise _ => Return failed
    | OutOfFuel => OutOfFuel
    end
  else Return (write_back new_data modifications).

Definition update_single_file (fuel : nat) (file : option bytes)
    (new_signer_data : option bytes)
    (new_device_model old_device_model preferred_model : option str)
    (experimental_model_replace : bool) : outcome update_result :=
  match file with
  | None => Return failed
  | Some old_data =>
      match find_signer_section file with
      | Located old_pos old_signer =>
          if negb (falsy old_signer) && negb (falsy_opt new_signer_data) then
            match patch old_data old_pos (default [] new_signer_data) with
            | SizeMismatch => Return failed
            | Patched new_data =>
                model_step fuel new_data [SignerAt old_pos]
                  new_device_model old_device_model
                  experimental_model_replace
            end
          else
            model_step fuel old_data [] new_device_model old_device_model
              experimental_model_replace
      | _ =>
          model_step fuel old_data [] new_device_model old_device_model
            experimental_model_replace
      end
  end.

(** *** main, command [update-file] *)

(** The parsed command line.  [signer_section] stands for the file named by
    [--signer-section]: [None] without the option or with an empty path,
    [Some None] when the file cannot be read. *)
Record args := {
  signer_section : option (option bytes);
  new_model : option str;
  old_model : option str;
  preferred : option str;
  auto_detect_old_model : bool;
  experimental : bool
}.

(** The exit status and what the run wrote to the image. *)
Definition main (fuel : nat) (file : option bytes) (a : args)
  : outcome (nat * option bytes) :=
  if negb (bool_decide (is_Some (signer_section a)))
     && falsy_opt (new_model a)
  then Return (1, None)
  else
    let run (new_signer_data : option bytes) :=
      let old :=
        if auto_detect_old_model a && falsy_opt (old_model a) then
          head (detect_device_models_in_file file (preferred a))
        else old_model a in
      bind (update_single_file fuel file new_signer_data (new_model a) old
              (preferred a) (experimental a))
        (fun r => Return (if success r then 0 else 1, written r)) in
    match signer_section a with
    | None => run None
    | Some None => Return (1, None)
    | Some (Some new_signer_data) =>
        if negb (length new_signer_data =? 128) then Return (1, None)
        else run (Some new_signer_data)
    end.

End UpdateSigner.

(** ** The operations under the names of the specification *)

(** [pat] is in [data] at index [p]. *)
Definition occurs_at (pat data : bytes) (p : nat) : bool :=
  startswith (drop p data) pat.

(** [p] is the index of the first [pat] in [data]. *)
Definition first_occurrence (pat data : bytes) (p : nat) : Prop :=
  occurs_at pat data p = true /\ forall q, q < p -> occurs_at pat data q = false.

Inductive locate_error := NotFound | TooShort.

(** RecordLocator.  The specification has two failures; the branches of the
    source that find no record to report (unreadable or empty file, no
    marker) all return the same [(None, None)] and are its [NotFound]. *)
Definition locate (buffer : bytes) : nat + locate_error :=
  match UpdateSigner.find_signer_section (Some buffer) with
  | Located start_pos _ => inl start_pos
  | SectionTooShort => inr TooShort
  | ReadFailed | EmptyFile | MarkerNotFound => inr NotFound
  end.

(** What a decoded field [s] owes to the bytes [raw] of its range: it holds
    the ASCII bytes found before the first NUL, in their order; when there
    is no other byte before that NUL it is that stretch of the range. *)
Definition reads_range (raw : bytes) (s : str) : Prop :=
  s = str_of_bytes (List.filter is_ascii (split_nul_first raw))
  /\ s `sublist_of` str_of_bytes (split_nul_first raw)
  /\ (Forall (fun b => is_ascii b = true) (split_nul_first raw) ->
      s = str_of_bytes (split_nul_first raw)
      /\ s `prefix_of` str_of_bytes raw).

(** The order of Python on [str]. *)
Definition str_lt (a b : str) : Prop := str_compare a b = Lt.

(** ModelDetector. *)
Definition detect (buffer : bytes) (preferred : option str) : list str :=
  UpdateSigner.detect_device_models_in_file (Some buffer) preferred.

(** The [device_model] field of the record of [buffer], when the record is
    located and decoded. *)
Definition record_device_model (buffer : bytes) : option str :=
  match UpdateSigner.find_signer_section (Some buffer) with
  | Located _ signer_data =>
      match UpdateSigner.parse_signer_section signer_data with
      | Some metadata => Some (device_model metadata)
      | None => None
      end
  | _ => None
  end.

(** [o] when it is one of the candidates. *)
Definition candidate (models : list str) (o : option str) : option str :=
  match o with
  | Some x => if decide (x ∈ models) then Some x else None
  | None => None
  end.

(** The head of the result in the words of the specification (4.5, step 3):
    the preferred string if it is a candidate, else the model of the record
    if it is a candidate, else the first candidate. *)
Definition priority_head (models : list str) (preferred record_model : option str)
  : option str :=
  match candidate models preferred with
  | Some p => Some p
  | None =>
      match candidate models record_model with
      | Some s => Some s
      | None => head models
      end
  end.

(** ** The passes of [replace_all_occurrences], one pass as a whole *)

(** The matches of one pass in [s], the part of the buffer from index [i]
    on: leftmost first, the scan resuming after each match.  [skip] counts
    the bytes of the last match that are still to be passed. *)
Fixpoint scan (skip : nat) (pat s : bytes) (i : nat) : list nat :=
  match s with
  | [] => []
  | _ :: rest =>
      match skip with
      | S k => scan k pat rest (S i)
      | 0 =>
          if startswith s pat
          then i :: scan (length pat - 1) pat rest (S i)
          else scan 0 pat rest (S i)
      end
  end.

Definition matches (data pat : bytes) : list nat := scan 0 pat data 0.

(** [buf] after [new_bytes] is written at each of [positions], in order. *)
Definition overwrite (new_bytes : bytes) (positions : list nat) (buf : bytes)
  : bytes :=
  foldl (fun b p => set_slice b p (p + length new_bytes) new_bytes)
    buf positions.

(** One pass: the matches are those of [data], the buffer given to the
    function; the writes go to the working copy, and the count grows by the
    number of matches. *)
Definition pass (data : bytes) (state : bytes * nat) (rep : bytes * bytes)
  : bytes * nat :=
  if length (fst rep) =? length (snd rep) then
    (overwrite (snd rep) (matches data (fst rep)) (fst state),
     snd state + length (matches data (fst rep)))
  else state.

(** The encodings of a token of ASCII characters. *)
Definition ascii_bytes (s : str) : bytes := map byte_of_N s.

Definition utf16le_bytes (a : bytes) : bytes :=
  flat_map (fun b => [b; x00]) a.

(** The five pairs of [replacements], in the order of the passes, for the
    ASCII bytes of the two tokens. *)
Definition encodings (old_a new_a : bytes) : list (bytes * bytes) :=
  [(old_a, new_a);
   (old_a, new_a);
   (utf16le_bytes old_a, utf16le_bytes new_a);
   (old_a ++ [x00], new_a ++ [x00]);
   (old_a ++ [x00], new_a ++ [x00])].

(** ** Occurrences of a pattern and how they can overlap *)

(** All the indices at which [pat] is in [s], the part of the buffer from
    index [i] on. *)
Fixpoint occurrences_from (pat s : bytes) (i : nat) : list nat :=
  match s with
  | [] => []
  | _ :: rest =>
      if startswith s pat
      then i :: occurrences_from pat rest (S i)
      else occurrences_from pat rest (S i)
  end.

Definition occurrences (pat data : bytes) : list nat :=
  occurrences_from pat data 0.

(** The byte at index [i] belongs to the [len] bytes that start at [p]. *)
Definition covers (p len i : nat) : Prop := p <= i < p + len.

(** [P] at some index and [Q] [d] bytes further can be in one buffer: they
    agree wherever both have a byte. *)
Definition overlap_ok (P Q : bytes) (d : nat) : bool :=
  forallb
    (fun k =>
       match P !! (d + k), Q !! k with
       | Some a, Some b => Byte.eqb a b
       | _, _ => true
       end)
    (seq 0 (length Q)).

(** No [Q] starts on a byte of a [P]. *)
Definition never_inside (P Q : bytes) : bool :=
  forallb (fun d => negb (overlap_ok P Q d)) (seq 0 (length P)).

(** Two occurrences of [pat] never overlap. *)
Definition unbordered (pat : bytes) : bool :=
  forallb (fun d => negb (overlap_ok pat pat d)) (seq 1 (length pat - 1)).

(** Where [old_w] has a zero byte, [new_w] has one too. *)
Definition zeros_kept (old_w new_w : bytes) : bool :=
  forallb
    (fun k =>
       match old_w !! k with
       | Some b =>
           negb (Byte.eqb b x00)
           || match new_w !! k with
              | Some c => Byte.eqb c x00
              | None => false
              end
       | None => true
       end)
    (seq 0 (length old_w)).

(** The tokens of the scenario, ["F711BXXS8HXF2"] and ["F711BXXSFJYGB"]. *)
Definition old_token : str :=
  Eval cbv in
    str_of_bytes
      ["F"; "7"; "1"; "1"; "B"; "X"; "X"; "S"; "8"; "H"; "X"; "F"; "2"]%byte.

Definition new_token : str :=
  Eval cbv in
    str_of_bytes
      ["F"; "7"; "1"; "1"; "B"; "X"; "X"; "S"; "F"; "J"; "Y"; "G"; "B"]%byte.

(** ModelReplacer under its name in the specification. *)
Definition replace_all (fuel : nat) (buffer : bytes) (old_token new_token : str)
  : outcome (bytes * nat) :=
  UpdateSigner.replace_all_occurrences fuel buffer old_token new_token.

(** The working copy [nd] after the ASCII passes over [data]: the bytes of
    every ASCII occurrence of the old token hold the new token, the bytes
    outside these occurrences are those of [data]. *)
Definition ascii_replaced (old_a new_a data nd : bytes) : Prop :=
  length nd = length data
  /\ forall i,
       (forall p, occurs_at old_a data p = true ->
                  covers p (length old_a) i -> nd !! i = new_a !! (i - p))
       /\ ((forall p, occurs_at old_a data p = true ->
                      ~ covers p (length old_a) i) ->
           nd !! i = data !! i).

(** The working copy [nd] once the UTF-16LE pass is done too. *)
Definition all_replaced (old_a new_a data nd : bytes) : Prop :=
  length nd = length data
  /\ forall i,
       (forall p, occurs_at old_a data p = true ->
                  covers p (length old_a) i -> nd !! i = new_a !! (i - p))
       /\ (forall q, occurs_at (utf16le_bytes old_a) data q = true ->
                     covers q (length (utf16le_bytes old_a)) i ->
                     nd !! i = utf16le_bytes new_a !! (i - q))
       /\ ((forall p, occurs_at old_a data p = true ->
                      ~ covers p (length old_a) i) ->
           (forall q, occurs_at (utf16le_bytes old_a) data q = true ->
                      ~ covers q (length (utf16le_bytes old_a)) i) ->
           nd !! i = data !! i).

(** ** StringReplacer in the words of the specification *)
Module SpecWording.

(** Section 4.4: "attempt a byte-for-byte scan-and-replace pass over the
    current buffer state (each encoding's pass sees the results of prior
    passes)".  The pass searches the buffer it writes. *)
Fixpoint replace_loop (fuel : nat) (old_bytes new_bytes buf : bytes)
    (count start : nat) : outcome (bytes * nat) :=
  match fuel with
  | 0 => OutOfFuel
  | S fuel' =>
      match find buf old_bytes start with
      | None => Return (buf, count)
      | Some pos =>
          replace_loop fuel' old_bytes new_bytes
            (set_slice buf pos (pos + length new_bytes) new_bytes)
            (count + 1) (pos + length new_bytes)
      end
  end.

Fixpoint replace_passes (fuel : nat) (reps : list (bytes * bytes))
    (buf : bytes) (total : nat) : outcome (bytes * nat) :=
  match reps with
  | [] => Return (buf, total)
  | (old_bytes, new_bytes) :: rest =>
      if negb (length old_bytes =? length new_bytes)
      then replace_passes fuel rest buf total
      else
        bind (replace_loop fuel old_bytes new_bytes buf 0 0)
          (fun r => replace_passes fuel rest (fst r) (total + snd r))
  end.

Definition replace_all (fuel : nat) (buffer : bytes) (old_token new_token : str)
  : outcome (bytes * nat) :=
  if falsy old_token || falsy new_token || str_eqb old_token new_token
  then Return (buffer, 0)
  else bind (UpdateSigner.replacements old_token new_token)
         (fun reps => replace_passes fuel reps buffer 0).

End SpecWording.

(** ** The form of a model string *)

(** [m] is a whole match of [[A-Z][0-9]{3}[A-Z]{2}[A-Z0-9]{6,12}]. *)
Definition model_shape (m : bytes) : bool :=
  match m with
  | c0 :: c1 :: c2 :: c3 :: c4 :: c5 :: rest =>
      UpdateSigner.is_upper c0 && UpdateSigner.is_digit c1
      && UpdateSigner.is_digit c2 && UpdateSigner.is_digit c3
      && UpdateSigner.is_upper c4 && UpdateSigner.is_upper c5
      && (6 <=? length rest) && (length rest <=? 12)
      && forallb UpdateSigner.is_upper_or_digit rest
  | _ => false
  end.

(** * Properties *)

(** ** Searching *)

Lemma byte_eqb_eq (a b : byte) : Byte.eqb a b = true <-> a = b.
Proof. split; [apply byte_dec_bl | apply byte_dec_lb]. Qed.

Lemma startswith_prefix (data pat : bytes) :
  startswith data pat = true <-> pat `prefix_of` data.
Proof.
  revert data. induction pat as [|p pat IH]; intros data; simpl.
  - split; [intros _; apply prefix_nil | done].
  - destruct data as [|d data].
    + split; [done | intros [k Hk]; discriminate].
    + rewrite andb_true_iff, byte_eqb_eq, IH. split.
      * intros [-> H]. by apply prefix_cons.
      * intros [k Hk]. injection Hk as -> ->. split; [done | by exists k].
Qed.

Lemma startswith_length (data pat : bytes) :
  startswith data pat = true -> length pat <= length data.
Proof. rewrite startswith_prefix. apply prefix_length. Qed.

Lemma occurs_at_bound (pat data : bytes) (p : nat) :
  pat <> [] -> occurs_at pat data p = true -> p + length pat <= length data.
Proof.
  unfold occurs_at. intros Hne H. apply startswith_length in H.
  rewrite length_drop in H. destruct pat; [done | simpl in *; lia].
Qed.

Lemma find_aux_Some (pat s : bytes) (i p : nat) :
  find_aux pat s i = Some p ->
  i <= p /\ startswith (drop (p - i) s) pat = true
  /\ forall q, i <= q < p -> startswith (drop (q - i) s) pat = false.
Proof.
  revert i. induction s as [|b s IH]; intros i; simpl.
  - destruct (startswith [] pat) eqn:E; [|done].
    intros [= <-]. rewrite Nat.sub_diag. simpl. split_and!; [lia | done | lia].
  - destruct (startswith (b :: s) pat) eqn:E.
    + intros [= <-]. rewrite Nat.sub_diag. simpl. split_and!; [lia | done | lia].
    + intros H. apply IH in H as (Hle & Hocc & Hno).
      replace (p - i) with (S (p - S i)) by lia. simpl.
      split_and!; [lia | done |].
      intros q Hq. destruct (decide (q = i)) as [->|Hne].
      * by rewrite Nat.sub_diag.
      * replace (q - i) with (S (q - S i)) by lia. simpl. apply Hno. lia.
Qed.

Lemma find_aux_None (pat s : bytes) (i : nat) :
  find_aux pat s i = None -> forall k, startswith (drop k s) pat = false.
Proof.
  revert i. induction s as [|b s IH]; intros i; simpl.
  - destruct (startswith [] pat) eqn:E; [done|]. intros _ k. by rewrite drop_nil.
  - destruct (startswith (b :: s) pat) eqn:E; [done|].
    intros H [|k]; [done|]. simpl. by eapply IH.
Qed.

Lemma find_Some (data pat : bytes) (start p : nat) :
  find data pat start = Some p ->
  start <= p /\ occurs_at pat data p = true
  /\ forall q, start <= q < p -> occurs_at pat data q = false.
Proof.
  unfold find, occurs_at. destruct (length data <? start) eqn:E; [done|].
  intros H. apply find_aux_Some in H as (Hle & Hocc & Hno).
  rewrite drop_drop in Hocc. replace (start + (p - start)) with p in Hocc by lia.
  split_and!; [done | done |].
  intros q Hq. specialize (Hno q Hq). rewrite drop_drop in Hno.
  by replace (start + (q - start)) with q in Hno by lia.
Qed.

Lemma find_None (data pat : bytes) (start : nat) :
  start <= length data ->
  find data pat start = None ->
  forall q, start <= q -> occurs_at pat data q = false.
Proof.
  unfold find, occurs_at. intros Hle.
  destruct (length data <? start) eqn:E; [apply Nat.ltb_lt in E; lia|].
  intros H q Hq. pose proof (find_aux_None _ _ _ H (q - start)) as Hk.
  rewrite drop_drop in Hk. by replace (start + (q - start)) with q in Hk by lia.
Qed.

Lemma find_first (data pat : bytes) (p : nat) :
  first_occurrence pat data p -> find data pat 0 = Some p.
Proof.
  intros [Hocc Hno]. destruct (find data pat 0) as [p'|] eqn:E.
  - apply find_Some in E as (_ & Hocc' & Hno'). f_equal.
    destruct (Nat.lt_trichotomy p' p) as [Hlt|[->|Hgt]]; [|done|].
    + rewrite Hno in Hocc' by done. discriminate.
    + rewrite Hno' in Hocc by lia. discriminate.
  - eapply find_None with (q := p) in E; [congruence | lia | lia].
Qed.

Lemma falsy_nil {A} (l : list A) : falsy l = true <-> l = [].
Proof. by destruct l. Qed.

Lemma falsy_false {A} (l : list A) : falsy l = false <-> l <> [].
Proof. by destruct l. Qed.

(** ** Slices *)

Lemma slice_take_drop {A} (l : list A) (i j : nat) :
  i <= j -> slice l i j = drop i (take j l).
Proof.
  intros Hij. unfold slice. rewrite take_drop_commute. f_equal. f_equal. lia.
Qed.

Lemma slice_length {A} (l : list A) (i j : nat) :
  i <= j -> j <= length l -> length (slice l i j) = j - i.
Proof. intros. unfold slice. rewrite length_take, length_drop. lia. Qed.

Lemma slice_take {A} (l : list A) (i j n : nat) :
  i <= j -> j <= n -> slice (take n l) i j = slice l i j.
Proof.
  intros Hij Hjn. rewrite !slice_take_drop by done.
  rewrite take_take. f_equal. f_equal. lia.
Qed.

Lemma slice_lookup {A} (l : list A) (i j k : nat) :
  slice l i j !! k = if decide (k < j - i) then l !! (i + k) else None.
Proof.
  unfold slice. case_decide.
  - rewrite lookup_take_lt by done. apply lookup_drop.
  - apply lookup_take_ge. lia.
Qed.

Lemma set_slice_length {A} (buf v : list A) (i : nat) :
  i + length v <= length buf ->
  length (set_slice buf i (i + length v) v) = length buf.
Proof.
  intros H. unfold set_slice.
  rewrite !length_app, length_take, length_drop. lia.
Qed.

Lemma set_slice_lookup {A} (buf v : list A) (i k : nat) :
  i + length v <= length buf ->
  set_slice buf i (i + length v) v !! k =
    if decide (i <= k < i + length v) then v !! (k - i) else buf !! k.
Proof.
  intros H. unfold set_slice.
  replace (Nat.max i (i + length v)) with (i + length v) by lia.
  case_decide as Hk.
  - rewrite lookup_app_r by (rewrite length_take; lia).
    rewrite length_take. replace (i `min` length buf) with i by lia.
    apply lookup_app_l. lia.
  - destruct (decide (k < i)).
    + rewrite lookup_app_l by (rewrite length_take; lia).
      apply lookup_take_lt. done.
    + rewrite lookup_app_r by (rewrite length_take; lia).
      rewrite length_take. replace (i `min` length buf) with i by lia.
      rewrite lookup_app_r by lia. rewrite lookup_drop. f_equal. lia.
Qed.

Lemma set_slice_slice {A} (buf v : list A) (i : nat) :
  i + length v <= length buf ->
  slice (set_slice buf i (i + length v) v) i (i + length v) = v.
Proof.
  intros H. unfold slice, set_slice.
  rewrite drop_app_length' by (rewrite length_take; lia).
  replace (i + length v - i) with (length v) by lia.
  by rewrite take_app_length.
Qed.

Lemma set_slice_same {A} (buf v : list A) (i : nat) :
  i + length v <= length buf ->
  slice buf i (i + length v) = v ->
  set_slice buf i (i + length v) v = buf.
Proof.
  intros H Hv. apply list_eq. intros k.
  rewrite set_slice_lookup by done. case_decide as Hk; [|done].
  rewrite <- Hv at 1. rewrite slice_lookup.
  case_decide; [f_equal; lia | lia].
Qed.

(** ** RecordLocator *)

Lemma find_signer_section_same (file : option bytes) :
  ExtractParams.find_signer_section file = UpdateSigner.find_signer_section file.
Proof. reflexivity. Qed.

Lemma find_signer_section_Located (data : bytes) (p : nat) (sd : bytes) :
  UpdateSigner.find_signer_section (Some data) = Located p sd <->
  first_occurrence signer_pattern data p /\ p + 128 <= length data
  /\ sd = slice data p (p + 128).
Proof.
  unfold UpdateSigner.find_signer_section, section_length.
  destruct (falsy data) eqn:Ef.
  { apply falsy_nil in Ef as ->. split; [done|].
    intros ([Hocc _] & _). unfold occurs_at in Hocc. by rewrite drop_nil in Hocc. }
  destruct (find data signer_pattern 0) as [p'|] eqn:Efind.
  - pose proof (find_Some _ _ _ _ Efind) as (_ & Hocc & Hno).
    assert (Hfirst : first_occurrence signer_pattern data p').
    { split; [done|]. intros q Hq. apply Hno. lia. }
    destruct (length data <? p' + 128) eqn:Elen.
    + apply Nat.ltb_lt in Elen. split; [done|].
      intros (Hf & Hle & _). apply find_first in Hf. simplify_eq. lia.
    + apply Nat.ltb_ge in Elen. split.
      * intros [= <- <-]. done.
      * intros (Hf & Hle & ->). apply find_first in Hf. by simplify_eq.
  - split; [done|]. intros (Hf & _). apply find_first in Hf. congruence.
Qed.

(** C7.  [locate] gives the offset of the first ["SignerVer02"] in the
    buffer (and gives an offset only when 128 bytes are there from it on); it
    gives [NotFound] for every buffer without the marker, and [TooShort] for
    every buffer where fewer than 128 bytes remain from the first marker to
    the end. *)
Theorem locate_first_marker (buffer : bytes) :
  (forall p, locate buffer = inl p <->
             first_occurrence signer_pattern buffer p /\ p + 128 <= length buffer)
  /\ ((forall p, occurs_at signer_pattern buffer p = false) ->
      locate buffer = inr NotFound)
  /\ (forall p, first_occurrence signer_pattern buffer p ->
                length buffer < p + 128 -> locate buffer = inr TooShort).
Proof.
  split_and!.
  - intros p. unfold locate.
    destruct (UpdateSigner.find_signer_section (Some buffer))
      as [p' sd| | | |] eqn:E.
    1: { apply find_signer_section_Located in E as (Hf & Hle & _). split.
         - by intros [= <-].
         - intros [Hf' _]. apply find_first in Hf, Hf'. congruence. }
    all: split; [done|]; intros [Hf Hle];
      assert (UpdateSigner.find_signer_section (Some buffer)
              = Located p (slice buffer p (p + 128)))
        by (by apply find_signer_section_Located);
      congruence.
  - intros Hno. unfold locate, UpdateSigner.find_signer_section.
    destruct (falsy buffer); [done|].
    destruct (find buffer signer_pattern 0) as [p|] eqn:E; [|done].
    apply find_Some in E as (_ & Hocc & _). rewrite Hno in Hocc. done.
  - intros p Hf Hlt.
    unfold locate, UpdateSigner.find_signer_section, section_length.
    destruct (falsy buffer) eqn:Ef.
    { apply falsy_nil in Ef as ->. destruct Hf as [Hocc _].
      unfold occurs_at in Hocc. by rewrite drop_nil in Hocc. }
    rewrite (find_first _ _ _ Hf).
    destruct (length buffer <? p + 128) eqn:E; [done|].
    apply Nat.ltb_ge in E. lia.
Qed.

Lemma locate_first_marker_witness :
  locate (signer_pattern ++ replicate 117 x00) = inl 0
  /\ locate [x00] = inr NotFound
  /\ locate signer_pattern = inr TooShort.
Proof.
  split_and!.
  - apply (proj1 (locate_first_marker (signer_pattern ++ replicate 117 x00))).
    split; [split; [reflexivity | intros q Hq; lia] | simpl; lia].
  - apply (proj1 (proj2 (locate_first_marker [x00]))).
    intros [|[|p]]; reflexivity.
  - apply (proj2 (proj2 (locate_first_marker signer_pattern)) 0).
    + split; [reflexivity | intros q Hq; lia].
    + simpl. lia.
Defined.

(** ** RecordCodec *)

Lemma field_take (signer_data : bytes) (i j : nat) :
  i <= j -> j <= 128 -> field (take 128 signer_data) i j = field signer_data i j.
Proof. intros. unfold field. by rewrite slice_take. Qed.

Lemma parse_fields_take (signer_data : bytes) :
  parse_fields (take 128 signer_data) = parse_fields signer_data.
Proof. unfold parse_fields. rewrite !field_take by lia. done. Qed.

(** Against C2 as stated: the extraction tool decodes a slice of 129 bytes,
    where the claim has [InvalidSize] for every length other than 128. *)
Lemma extract_accepts_longer_slice :
  length (replicate 129 x00) <> 128
  /\ ExtractParams.parse_signer_section (replicate 129 x00) <> None.
Proof. split; [simpl; lia | discriminate]. Qed.

Lemma update_parse_unfold (signer_data : bytes) :
  UpdateSigner.parse_signer_section signer_data
  = if length signer_data =? 128 then Some (parse_fields signer_data) else None.
Proof.
  unfold UpdateSigner.parse_signer_section.
  destruct signer_data as [|b rest]; [done|]. cbn [falsy orb].
  by destruct (length (b :: rest) =? 128).
Qed.

Lemma extract_parse_unfold (signer_data : bytes) :
  ExtractParams.parse_signer_section signer_data
  = if length signer_data <? 128 then None else Some (parse_fields signer_data).
Proof.
  unfold ExtractParams.parse_signer_section.
  by destruct signer_data as [|b rest].
Qed.

(** C2, amended.  The decoder of the update tool fails exactly when the slice
    is not 128 bytes long; the decoder of the extraction tool fails exactly
    when the slice is shorter than 128 bytes, and reads the first 128 bytes
    of a longer one.  In both, a slice of 128 bytes is decoded whatever it
    holds. *)
Theorem parse_signer_section_size (signer_data : bytes) :
  (UpdateSigner.parse_signer_section signer_data = None
   <-> length signer_data <> 128)
  /\ (ExtractParams.parse_signer_section signer_data = None
      <-> length signer_data < 128)
  /\ (length signer_data = 128 ->
      UpdateSigner.parse_signer_section signer_data
      = Some (parse_fields signer_data))
  /\ (128 <= length signer_data ->
      ExtractParams.parse_signer_section signer_data
      = Some (parse_fields (take 128 signer_data))).
Proof.
  rewrite update_parse_unfold, extract_parse_unfold, parse_fields_take.
  destruct (Nat.eqb_spec (length signer_data) 128);
    destruct (Nat.ltb_spec (length signer_data) 128);
    split_and!; try split; intros; try done; try lia.
Qed.

Lemma parse_signer_section_size_witness :
  UpdateSigner.parse_signer_section (replicate 128 x00)
  = Some (parse_fields (replicate 128 x00))
  /\ ExtractParams.parse_signer_section (replicate 129 x00)
     = Some (parse_fields (take 128 (replicate 129 x00))).
Proof.
  split.
  - apply (proj1 (proj2 (proj2 (parse_signer_section_size (replicate 128 x00))))).
    reflexivity.
  - apply (proj2 (proj2 (proj2 (parse_signer_section_size (replicate 129 x00))))).
    simpl. lia.
Defined.

(** ** PatchEngine *)

Lemma patch_unfold (buffer : bytes) (offset : nat) (new_record : bytes) :
  length new_record = 128 ->
  UpdateSigner.patch buffer offset new_record
  = UpdateSigner.Patched
      (set_slice buffer offset (offset + length new_record) new_record).
Proof. intros H. unfold UpdateSigner.patch. by rewrite H. Qed.

(** C5.  For an offset with [offset + 128 <= length buffer] and a record of
    128 bytes, [patch] gives a buffer of the length of the input that holds
    the record at [offset, offset + 128) and the bytes of the input
    everywhere else. *)
Theorem patch_frame (buffer : bytes) (offset : nat) (new_record : bytes) :
  offset + 128 <= length buffer ->
  length new_record = 128 ->
  exists out,
    UpdateSigner.patch buffer offset new_record = UpdateSigner.Patched out
    /\ length out = length buffer
    /\ slice out offset (offset + 128) = new_record
    /\ (forall i, offset <= i < offset + 128 ->
                  out !! i = new_record !! (i - offset))
    /\ (forall i, i < offset \/ offset + 128 <= i -> out !! i = buffer !! i).
Proof.
  intros Hoff Hlen. eexists. split; [by apply patch_unfold|].
  assert (Hle : offset + length new_record <= length buffer) by lia.
  split_and!.
  - by apply set_slice_length.
  - rewrite <- Hlen at 1. by apply set_slice_slice.
  - intros i Hi. rewrite set_slice_lookup by done.
    case_decide; [done | lia].
  - intros i Hi. rewrite set_slice_lookup by done.
    case_decide; [lia | done].
Qed.

Lemma patch_frame_witness :
  exists out,
    UpdateSigner.patch (replicate 130 xff) 1 (replicate 128 x00)
    = UpdateSigner.Patched out
    /\ length out = 130
    /\ slice out 1 129 = replicate 128 x00
    /\ (forall i, 1 <= i < 129 -> out !! i = replicate 128 x00 !! (i - 1))
    /\ (forall i, i < 1 \/ 129 <= i -> out !! i = replicate 130 xff !! i).
Proof.
  apply (patch_frame (replicate 130 xff) 1 (replicate 128 x00)).
  - simpl. lia.
  - reflexivity.
Defined.

(** C8.  [patch] is idempotent: patching the patched buffer at the same
    offset with the same 128-byte record gives the patched buffer again. *)
Theorem patch_idempotent (buffer : bytes) (offset : nat) (new_record out : bytes) :
  offset + 128 <= length buffer ->
  length new_record = 128 ->
  UpdateSigner.patch buffer offset new_record = UpdateSigner.Patched out ->
  UpdateSigner.patch out offset new_record = UpdateSigner.Patched out.
Proof.
  intros Hoff Hlen. rewrite !patch_unfold by done. intros [= <-]. f_equal.
  assert (Hle : offset + length new_record <= length buffer) by lia.
  apply set_slice_same.
  - by rewrite set_slice_length.
  - by apply set_slice_slice.
Qed.

Lemma patch_idempotent_witness :
  UpdateSigner.patch
    (replicate 1 xff ++ replicate 128 x00 ++ replicate 1 xff) 1
    (replicate 128 x00)
  = UpdateSigner.Patched
      (replicate 1 xff ++ replicate 128 x00 ++ replicate 1 xff).
Proof.
  apply (patch_idempotent (replicate 130 xff) 1 (replicate 128 x00)).
  - simpl. lia.
  - reflexivity.
  - reflexivity.
Defined.

Lemma find_signer_section_truthy (data : bytes) (p : nat) (sd : bytes) :
  UpdateSigner.find_signer_section (Some data) = Located p sd ->
  length sd = 128 /\ falsy sd = false.
Proof.
  intros (_ & Hle & ->)%find_signer_section_Located.
  assert (Hlen : length (slice data p (p + 128)) = 128)
    by (rewrite slice_length; lia).
  split; [done|]. apply falsy_false. intros E. by rewrite E in Hlen.
Qed.

(** Against C6 as stated.  [update_single_file] tests the size of the record
    under [if old_signer and new_signer_data:] only.  An empty record, which
    is not 128 bytes long, is falsy; and a file without a record has no
    [old_signer].  In both cases the size test is not reached: with the
    models ["A"] and ["B"] and the replacement switched on, the run goes on,
    writes the file and returns [True]. *)
Lemma wrong_size_record_not_tested :
  let with_record := ["A"]%byte ++ signer_pattern ++ replicate 117 x00 in
  length (@nil byte) <> 128
  /\ UpdateSigner.update_single_file 130 (Some with_record) (Some [])
       (Some [66%N]) (Some [65%N]) None true
     = Return {| UpdateSigner.success := true;
                 UpdateSigner.written :=
                   Some (["B"]%byte ++ signer_pattern ++ replicate 117 x00) |}
  /\ length [x01] <> 128
  /\ UpdateSigner.update_single_file 2 (Some ["A"]%byte) (Some [x01])
       (Some [66%N]) (Some [65%N]) None true
     = Return {| UpdateSigner.success := true;
                 UpdateSigner.written := Some ["B"]%byte |}.
Proof.
  split_and!; [simpl; lia | reflexivity | simpl; lia | reflexivity].
Qed.

(** C6, amended.  [patch] fails with [SizeMismatch] for every record that is
    not 128 bytes long.  In [update_single_file] the size is tested when the
    file has a record and the record supplied is not empty: then a record of
    another size makes the run fail as a whole, it returns [False] and has
    written nothing, whatever the other arguments ask for.  When the file
    has no record, or the record supplied is empty, the record is not looked
    at: the run is the run without a record, so that no buffer patched in
    part is ever written.  [main] tests the size itself and stops with
    status 1, before the image is touched, for every record file that is not
    128 bytes long, the empty one too. *)
Theorem patch_size_mismatch_fails :
  (forall (buffer : bytes) (offset : nat) (new_record : bytes),
      length new_record <> 128 ->
      UpdateSigner.patch buffer offset new_record = UpdateSigner.SizeMismatch)
  /\ (forall (fuel : nat) (data : bytes) (old_pos : nat)
             (old_signer new_record : bytes)
             (new_device_model old_device_model preferred_model : option str)
             (experimental_model_replace : bool),
         UpdateSigner.find_signer_section (Some data)
         = Located old_pos old_signer ->
         new_record <> [] ->
         length new_record <> 128 ->
         UpdateSigner.update_single_file fuel (Some data) (Some new_record)
           new_device_model old_device_model preferred_model
           experimental_model_replace
         = Return {| UpdateSigner.success := false;
                     UpdateSigner.written := None |})
  /\ (forall (fuel : nat) (data : bytes) (new_record : bytes)
             (new_device_model old_device_model preferred_model : option str)
             (experimental_model_replace : bool),
         (forall old_pos old_signer,
             UpdateSigner.find_signer_section (Some data)
             <> Located old_pos old_signer)
         \/ new_record = [] ->
         UpdateSigner.update_single_file fuel (Some data) (Some new_record)
           new_device_model old_device_model preferred_model
           experimental_model_replace
         = UpdateSigner.update_single_file fuel (Some data) None
             new_device_model old_device_model preferred_model
             experimental_model_replace)
  /\ (forall (fuel : nat) (file : option bytes) (a : UpdateSigner.args)
             (new_record : bytes),
         UpdateSigner.signer_section a = Some (Some new_record) ->
         length new_record <> 128 ->
         UpdateSigner.main fuel file a = Return (1, None)).
Proof.
  split_and!.
  - intros buffer offset new_record Hlen. unfold UpdateSigner.patch.
    by destruct (Nat.eqb_spec (length new_record) 128).
  - intros fuel data old_pos old_signer new_record nm om pm ex Hfind Hne Hlen.
    unfold UpdateSigner.update_single_file. rewrite Hfind.
    destruct (find_signer_section_truthy _ _ _ Hfind) as [_ ->].
    apply falsy_false in Hne. cbn [falsy_opt negb andb default]. rewrite Hne.
    cbn [negb]. unfold UpdateSigner.patch, id.
    by destruct (Nat.eqb_spec (length new_record) 128).
  - intros fuel data new_record nm om pm ex Hskip.
    unfold UpdateSigner.update_single_file.
    destruct (UpdateSigner.find_signer_section (Some data))
      as [old_pos old_signer| | | |] eqn:Hfind; try done.
    destruct Hskip as [Hno| ->]; [by destruct (Hno old_pos old_signer)|].
    cbn [falsy_opt falsy negb]. by rewrite andb_false_r.
  - intros fuel file a new_record Hsec Hlen. unfold UpdateSigner.main.
    rewrite Hsec. cbn [bool_decide]. 
    destruct (Nat.eqb_spec (length new_record) 128); [done|].
    cbn [negb]. by destruct (negb _ && _).
Qed.

Lemma patch_size_mismatch_fails_witness :
  UpdateSigner.patch [x00] 0 [x01] = UpdateSigner.SizeMismatch
  /\ UpdateSigner.update_single_file 0
       (Some (signer_pattern ++ replicate 117 x00)) (Some [x01])
       None None None true
     = Return {| UpdateSigner.success := false; UpdateSigner.written := None |}
  /\ UpdateSigner.update_single_file 2 (Some ["A"]%byte) (Some [x01])
       (Some [66%N]) (Some [65%N]) None true
     = UpdateSigner.update_single_file 2 (Some ["A"]%byte) None
         (Some [66%N]) (Some [65%N]) None true
  /\ UpdateSigner.main 0 (Some (signer_pattern ++ replicate 117 x00))
       {| UpdateSigner.signer_section := Some (Some []);
          UpdateSigner.new_model := None;
          UpdateSigner.old_model := None;
          UpdateSigner.preferred := None;
          UpdateSigner.auto_detect_old_model := false;
          UpdateSigner.experimental := true |}
     = Return (1, None).
Proof.
  split_and!.
  - apply (proj1 patch_size_mismatch_fails). simpl. lia.
  - apply (proj1 (proj2 patch_size_mismatch_fails)) with
      (old_pos := 0) (old_signer := signer_pattern ++ replicate 117 x00).
    + reflexivity.
    + discriminate.
    + simpl. lia.
  - apply (proj1 (proj2 (proj2 patch_size_mismatch_fails))).
    left. intros old_pos old_signer. discriminate.
  - apply (proj2 (proj2 (proj2 patch_size_mismatch_fails)))
      with (new_record := []).
    + reflexivity.
    + simpl. lia.
Defined.

(** ** StringReplacer: the encodings *)

Lemma str_compare_eq (a b : str) : str_compare a b = Eq <-> a = b.
Proof.
  revert b. induction a as [|x a IH]; intros [|y b]; simpl; try done.
  destruct (N.compare_spec x y) as [->|Hlt|Hgt].
  - rewrite IH. split; [by intros -> | by intros [= ->]].
  - split; [done | intros [= -> _]; lia].
  - split; [done | intros [= -> _]; lia].
Qed.

Lemma str_eqb_eq (a b : str) : str_eqb a b = true <-> a = b.
Proof.
  unfold str_eqb. rewrite <- str_compare_eq.
  destruct (str_compare a b); split; congruence.
Qed.

Lemma str_eqb_neq (a b : str) : str_eqb a b = false <-> a <> b.
Proof.
  rewrite <- str_eqb_eq. destruct (str_eqb a b); split; congruence.
Qed.

Lemma encode_ascii_Return (s : str) :
  Forall (fun c => (c < 128)%N) s ->
  encode_ascii s = Return (map byte_of_N s).
Proof.
  induction 1 as [|c s Hc _ IH]; [done|]. simpl.
  destruct (N.ltb_spec c 128); [|lia]. by rewrite IH.
Qed.

Lemma encode_ascii_Raise (s : str) :
  Exists (fun c => (128 <= c)%N) s ->
  encode_ascii s = Raise UnicodeEncodeError.
Proof.
  induction 1 as [c s Hc|c s _ IH]; simpl.
  - by destruct (N.ltb_spec c 128); [lia|].
  - destruct (N.ltb_spec c 128); [|done]. by rewrite IH.
Qed.

Lemma ascii_or_not (s : str) :
  Forall (fun c => (c < 128)%N) s \/ Exists (fun c => (128 <= c)%N) s.
Proof.
  induction s as [|c s [IH|IH]]; [by left | |].
  - destruct (N.ltb_spec c 128); [left | right]; by constructor.
  - right. by constructor.
Qed.

Lemma guard_open (old_model new_model : str) :
  old_model <> [] -> new_model <> [] -> old_model <> new_model ->
  falsy old_model || falsy new_model || str_eqb old_model new_model = false.
Proof.
  intros Ho Hn Hne. apply falsy_false in Ho, Hn. apply str_eqb_neq in Hne.
  by rewrite Ho, Hn, Hne.
Qed.

Lemma replacements_Raise (old_model new_model : str) :
  Exists (fun c => (128 <= c)%N) (old_model ++ new_model) ->
  UpdateSigner.replacements old_model new_model = Raise UnicodeEncodeError.
Proof.
  intros H. unfold UpdateSigner.replacements.
  destruct (ascii_or_not old_model) as [Hold|Hold].
  - rewrite (encode_ascii_Return _ Hold). cbn [bind].
    rewrite encode_ascii_Raise; [done|].
    apply Exists_app in H as [H|H]; [|done].
    apply Exists_exists in H as (c & Hin & Hc).
    rewrite Forall_forall in Hold. specialize (Hold _ Hin). simpl in Hold. lia.
  - by rewrite (encode_ascii_Raise _ Hold).
Qed.

(** C10.  With distinct non-empty tokens of which one holds a character
    outside ASCII, [replace_all_occurrences] raises from [encode('ascii')]
    and returns no [(buffer, count)]: the guard on empty and equal tokens
    does not catch such tokens. *)
Theorem replace_all_non_ascii_raises (fuel : nat) (data : bytes)
    (old_model new_model : str) :
  old_model <> [] -> new_model <> [] -> old_model <> new_model ->
  (exists c, c ∈ old_model ++ new_model /\ (128 <= c)%N) ->
  UpdateSigner.replace_all_occurrences fuel data old_model new_model
  = Raise UnicodeEncodeError.
Proof.
  intros Ho Hn Hne (c & Hin & Hc).
  unfold UpdateSigner.replace_all_occurrences.
  rewrite guard_open by done.
  rewrite replacements_Raise; [done|].
  apply Exists_exists. by exists c.
Qed.

Lemma replace_all_non_ascii_raises_witness :
  UpdateSigner.replace_all_occurrences 0 [x00] [233%N] [65%N]
  = Raise UnicodeEncodeError.
Proof.
  apply replace_all_non_ascii_raises.
  - discriminate.
  - discriminate.
  - discriminate.
  - exists 233%N. split; [left | lia].
Defined.

(** ** Decoded fields *)

Lemma split_nul_first_prefix (s : bytes) : split_nul_first s `prefix_of` s.
Proof.
  induction s as [|b s IH]; simpl; [done|].
  destruct (Byte.eqb b x00); [apply prefix_nil | by apply prefix_cons].
Qed.

Lemma filter_sublist {A} (f : A -> bool) (l : list A) :
  List.filter f l `sublist_of` l.
Proof.
  induction l as [|x l IH]; simpl; [done|].
  destruct (f x); by constructor.
Qed.

Lemma filter_all {A} (f : A -> bool) (l : list A) :
  Forall (fun x => f x = true) l -> List.filter f l = l.
Proof. induction 1 as [|x l Hx _ IH]; simpl; [done|]. by rewrite Hx, IH. Qed.

Lemma map_sublist {A B} (f : A -> B) (l k : list A) :
  l `sublist_of` k -> map f l `sublist_of` map f k.
Proof. induction 1; simpl; by constructor. Qed.

Lemma map_prefix {A B} (f : A -> B) (l k : list A) :
  l `prefix_of` k -> map f l `prefix_of` map f k.
Proof. intros [r ->]. exists (map f r). apply map_app. Qed.

Lemma field_reads_range (raw : bytes) :
  reads_range raw (decode_ascii_ignore (split_nul_first raw)).
Proof.
  unfold reads_range, decode_ascii_ignore, str_of_bytes. split_and!.
  - done.
  - apply map_sublist, filter_sublist.
  - intros Hall. rewrite (filter_all _ _ Hall). split; [done|].
    apply map_prefix, split_nul_first_prefix.
Qed.

Lemma slice_slice {A} (l : list A) (p n i j : nat) :
  i <= j -> j <= n ->
  slice (slice l p (p + n)) i j = slice l (p + i) (p + j).
Proof.
  intros Hij Hjn. apply list_eq. intros k. rewrite !slice_lookup.
  repeat case_decide; try lia; try done.
  f_equal. lia.
Qed.

Lemma only_occurrence_check (pat data : bytes) (p : nat) :
  pat <> [] ->
  forallb (fun q => negb (occurs_at pat data q) || (q =? p))
    (seq 0 (length data)) = true ->
  forall q, occurs_at pat data q = true -> q = p.
Proof.
  intros Hne Hall q Hocc. rewrite forallb_forall in Hall.
  pose proof (occurs_at_bound _ _ _ Hne Hocc) as Hb.
  assert (Hin : In q (seq 0 (length data))).
  { apply in_seq. destruct pat; [done|]. simpl in Hb. lia. }
  specialize (Hall _ Hin). rewrite Hocc in Hall. simpl in Hall.
  by apply Nat.eqb_eq.
Qed.

(** Against C4 as stated.  A buffer with one marker and 150 zero bytes
    after it: the record is found and decoded, and its blank
    [software_version] comes out as ["<empty>"], which is no prefix of the
    bytes of its range, cut at the first NUL or not. *)
Lemma blank_version_not_prefix :
  let buffer := signer_pattern ++ replicate 150 x00 in
  occurs_at signer_pattern buffer 0 = true
  /\ (forall q, occurs_at signer_pattern buffer q = true -> q = 0)
  /\ 0 + length signer_pattern + 128 <= length buffer
  /\ exists sd md,
       UpdateSigner.find_signer_section (Some buffer) = Located 0 sd
       /\ UpdateSigner.parse_signer_section sd = Some md
       /\ ~ software_version md `prefix_of` str_of_bytes (slice sd 112 127)
       /\ ~ software_version md
            `prefix_of` str_of_bytes (split_nul_first (slice sd 112 127)).
Proof.
  intros buffer. split_and!.
  - reflexivity.
  - apply only_occurrence_check; [discriminate | by vm_compute].
  - simpl. lia.
  - eexists _, _. split_and!.
    + reflexivity.
    + reflexivity.
    + intros [k Hk]. vm_compute in Hk. discriminate.
    + intros [k Hk]. vm_compute in Hk. discriminate.
Qed.

(** C4, amended.  In a buffer whose only marker is at [p], with 128 bytes from
    [p] on, the record is found and decoded.  Each decoded field holds the
    bytes of its range up to the first NUL with the non-ASCII ones dropped,
    so it is a subsequence of them, and it is that stretch itself, a prefix
    of the range, when all of it is ASCII.  [software_version] is read in
    the same way and reported as ["<empty>"] when it comes out empty. *)
Theorem locate_decode_fields (buffer : bytes) (p : nat) :
  occurs_at signer_pattern buffer p = true ->
  (forall q, occurs_at signer_pattern buffer q = true -> q = p) ->
  p + 128 <= length buffer ->
  exists sd md,
    UpdateSigner.find_signer_section (Some buffer) = Located p sd
    /\ UpdateSigner.parse_signer_section sd = Some md
    /\ reads_range (slice buffer (p + 0) (p + 15)) (signer_version md)
    /\ reads_range (slice buffer (p + 16) (p + 31)) (number md)
    /\ reads_range (slice buffer (p + 32) (p + 63)) (device_model md)
    /\ reads_range (slice buffer (p + 64) (p + 78)) (date md)
    /\ reads_range (slice buffer (p + 80) (p + 111)) (software_model md)
    /\ exists v,
         reads_range (slice buffer (p + 112) (p + 127)) v
         /\ software_version md = if decide (v = []) then empty_sentinel else v.
Proof.
  intros Hocc Honly Hlen.
  assert (Hfind : UpdateSigner.find_signer_section (Some buffer)
                  = Located p (slice buffer p (p + 128))).
  { apply find_signer_section_Located. split_and!; [|done|done].
    split; [done|]. intros q Hq.
    destruct (occurs_at signer_pattern buffer q) eqn:E; [|done].
    apply Honly in E. lia. }
  exists (slice buffer p (p + 128)), (parse_fields (slice buffer p (p + 128))).
  split; [done|]. split.
  { rewrite update_parse_unfold, slice_length by lia.
    by replace (p + 128 - p) with 128 by lia. }
  unfold parse_fields, field. cbn [signer_version number device_model date
    software_model software_version].
  rewrite !slice_slice by lia.
  split_and!; try apply field_reads_range.
  eexists. split; [apply field_reads_range|].
  unfold or_empty. by destruct (decode_ascii_ignore _).
Qed.

Lemma locate_decode_fields_witness :
  let buffer := signer_pattern ++ replicate 117 x00 in
  exists sd md,
    UpdateSigner.find_signer_section (Some buffer) = Located 0 sd
    /\ UpdateSigner.parse_signer_section sd = Some md
    /\ reads_range (slice buffer (0 + 0) (0 + 15)) (signer_version md)
    /\ reads_range (slice buffer (0 + 16) (0 + 31)) (number md)
    /\ reads_range (slice buffer (0 + 32) (0 + 63)) (device_model md)
    /\ reads_range (slice buffer (0 + 64) (0 + 78)) (date md)
    /\ reads_range (slice buffer (0 + 80) (0 + 111)) (software_model md)
    /\ exists v,
         reads_range (slice buffer (0 + 112) (0 + 127)) v
         /\ software_version md = if decide (v = []) then empty_sentinel else v.
Proof.
  intros buffer. apply (locate_decode_fields buffer 0).
  - reflexivity.
  - apply only_occurrence_check; [discriminate | by vm_compute].
  - simpl. lia.
Defined.

(** ** ModelDetector: order and candidates *)

Lemma str_compare_antisym (a b : str) :
  str_compare b a = CompOpp (str_compare a b).
Proof.
  revert b. induction a as [|x a IH]; intros [|y b]; simpl; try done.
  rewrite (N.compare_antisym x y). destruct (x ?= y)%N; simpl; [apply IH|done|done].
Qed.

Lemma str_lt_irrefl (a : str) : ~ str_lt a a.
Proof.
  unfold str_lt. assert (H : str_compare a a = Eq) by by apply str_compare_eq.
  by rewrite H.
Qed.

Lemma str_lt_trans (a b c : str) : str_lt a b -> str_lt b c -> str_lt a c.
Proof.
  unfold str_lt. revert b c.
  induction a as [|x a IH]; intros [|y b] [|z c]; simpl; try done.
  destruct (N.compare_spec x y) as [->|Hxy|Hxy]; [| |done].
  - destruct (N.compare_spec y z) as [->|Hyz|Hyz]; [apply IH|done|done].
  - intros _. destruct (N.compare_spec y z) as [->|Hyz|Hyz]; [| |done].
    + intros _. by destruct (N.compare_spec x z) as [->|?|?]; [lia| |lia].
    + intros _. by destruct (N.compare_spec x z) as [->|?|?]; [lia| |lia].
Qed.

Lemma str_in_elem_of (x : str) (l : list str) : str_in x l = true <-> x ∈ l.
Proof.
  unfold str_in. rewrite existsb_exists. split.
  - intros (y & Hin & Heq). apply str_eqb_eq in Heq as ->.
    by apply list_elem_of_In.
  - intros Hin. exists x. split; [by apply list_elem_of_In | by apply str_eqb_eq].
Qed.

Lemma insert_sorted_elem_of (x y : str) (l : list str) :
  y ∈ insert_sorted x l <-> y = x \/ y ∈ l.
Proof.
  induction l as [|z l IH]; simpl.
  - rewrite list_elem_of_singleton, elem_of_nil. tauto.
  - destruct (str_compare x z) eqn:E.
    + apply str_compare_eq in E as ->. rewrite !elem_of_cons. tauto.
    + rewrite !elem_of_cons. tauto.
    + rewrite !elem_of_cons, IH. tauto.
Qed.

Lemma insert_sorted_sorted (x : str) (l : list str) :
  StronglySorted str_lt l -> StronglySorted str_lt (insert_sorted x l).
Proof.
  induction 1 as [|z l Hs IH Hall]; simpl.
  - repeat constructor.
  - destruct (str_compare x z) eqn:E.
    + by constructor.
    + constructor; [by constructor|]. constructor; [done|].
      eapply Forall_impl; [exact Hall|]. intros w Hw. by eapply str_lt_trans.
    + constructor; [done|]. apply Forall_forall. intros w Hw.
      apply insert_sorted_elem_of in Hw as [->|Hw].
      * unfold str_lt. by rewrite str_compare_antisym, E.
      * rewrite Forall_forall in Hall. by apply Hall.
Qed.

Lemma sorted_set_sorted (l : list str) : StronglySorted str_lt (sorted_set l).
Proof.
  induction l as [|x l IH]; simpl; [constructor | by apply insert_sorted_sorted].
Qed.

Lemma sorted_set_elem_of (x : str) (l : list str) : x ∈ sorted_set l <-> x ∈ l.
Proof.
  induction l as [|y l IH]; simpl; [done|].
  rewrite insert_sorted_elem_of, IH, elem_of_cons. tauto.
Qed.

Lemma sorted_head_not_in_tail (h : str) (t : list str) :
  StronglySorted str_lt (h :: t) -> h ∉ t.
Proof.
  intros Hs Hin. apply StronglySorted_inv in Hs as [_ Hall].
  rewrite Forall_forall in Hall. by apply (str_lt_irrefl h), Hall.
Qed.

Lemma others_elem_of (x m : str) (l : list str) :
  m ∈ UpdateSigner.others x l <-> m ∈ l /\ m <> x.
Proof.
  unfold UpdateSigner.others. rewrite !list_elem_of_In, filter_In.
  rewrite negb_true_iff, str_eqb_neq. done.
Qed.

Lemma others_not_in (x : str) (l : list str) :
  x ∉ l -> UpdateSigner.others x l = l.
Proof.
  intros Hx. apply filter_all. apply Forall_forall. intros m Hm.
  apply negb_true_iff, str_eqb_neq. intros ->. done.
Qed.

Lemma others_head (h : str) (t : list str) :
  StronglySorted str_lt (h :: t) -> UpdateSigner.others h (h :: t) = t.
Proof.
  intros Hs. unfold UpdateSigner.others. simpl.
  assert (E : str_eqb h h = true) by by apply str_eqb_eq.
  rewrite E. simpl. apply others_not_in. by apply sorted_head_not_in_tail.
Qed.

Lemma match_model_first (s : bytes) (n : nat) :
  UpdateSigner.match_model s = Some n ->
  exists c rest, take n s = c :: rest /\ UpdateSigner.is_upper c = true.
Proof.
  unfold UpdateSigner.match_model.
  destruct s as [|c0 [|c1 [|c2 [|c3 [|c4 [|c5 rest]]]]]]; try done.
  destruct (UpdateSigner.is_upper c0) eqn:E0; [|done]. simpl andb.
  destruct (_ && _); [|done].
  destruct (6 <=? _); [|done]. intros [= <-]. simpl. by eexists _, _.
Qed.

Lemma findall_from_upper (skip : nat) (s m : bytes) :
  m ∈ UpdateSigner.findall_from skip s ->
  exists c rest, m = c :: rest /\ UpdateSigner.is_upper c = true.
Proof.
  revert skip. induction s as [|b s IH]; intros skip;
    cbn [UpdateSigner.findall_from].
  - by intros ?%elem_of_nil.
  - destruct skip as [|k]; [|apply IH].
    destruct (UpdateSigner.match_model (b :: s)) as [n|] eqn:E; [|apply IH].
    intros [->|Hin]%elem_of_cons; [|by eapply IH].
    by apply match_model_first.
Qed.

Lemma is_upper_ascii (c : byte) :
  UpdateSigner.is_upper c = true -> is_ascii c = true.
Proof.
  unfold UpdateSigner.is_upper, is_ascii.
  intros [_ H]%andb_true_iff. apply N.leb_le in H. apply N.ltb_lt. lia.
Qed.

Lemma models_of_elem_of (data : bytes) (x : str) :
  x ∈ UpdateSigner.models_of data ->
  exists m, m ∈ UpdateSigner.findall data /\ x = decode_ascii_ignore m.
Proof.
  unfold UpdateSigner.models_of. rewrite sorted_set_elem_of, list_elem_of_In.
  intros (m & <- & Hm)%in_map_iff. apply filter_In in Hm as [Hm _].
  exists m. by rewrite list_elem_of_In.
Qed.

Lemma models_of_nonempty (data : bytes) : [] ∉ UpdateSigner.models_of data.
Proof.
  intros (m & Hm & Heq)%models_of_elem_of.
  apply findall_from_upper in Hm as (c & rest & -> & Hc).
  unfold decode_ascii_ignore in Heq. simpl in Heq.
  by rewrite (is_upper_ascii _ Hc) in Heq.
Qed.

Lemma signer_model_of_record (buffer : bytes) :
  UpdateSigner.signer_model_of (Some buffer)
  = match record_device_model buffer with
    | Some s => if falsy s then None else Some s
    | None => None
    end.
Proof.
  unfold UpdateSigner.signer_model_of, record_device_model.
  destruct (UpdateSigner.find_signer_section (Some buffer))
    as [p sd| | | |] eqn:E; try done.
  destruct (find_signer_section_truthy _ _ _ E) as [_ ->].
  by destruct (UpdateSigner.parse_signer_section sd).
Qed.

Lemma candidate_Some (models : list str) (o : option str) (x : str) :
  candidate models o = Some x -> o = Some x /\ x ∈ models.
Proof.
  unfold candidate. destruct o as [y|]; [|done].
  case_decide; [|done]. by intros [= ->].
Qed.

Lemma truthy_in_candidate (models : list str) (o : option str) :
  [] ∉ models ->
  UpdateSigner.truthy_in o models
  = match candidate models o with Some _ => true | None => false end.
Proof.
  intros Hne. unfold UpdateSigner.truthy_in, candidate.
  destruct o as [x|]; [|done]. case_decide as Hx.
  - assert (Hf : falsy x = false) by (apply falsy_false; by intros ->).
    rewrite Hf. simpl. by apply str_in_elem_of.
  - destruct (str_in x models) eqn:E; [by apply str_in_elem_of in E|].
    apply andb_false_r.
Qed.

Lemma candidate_signer_model (buffer : bytes) (models : list str) :
  [] ∉ models ->
  candidate models (UpdateSigner.signer_model_of (Some buffer))
  = candidate models (record_device_model buffer).
Proof.
  intros Hne. rewrite signer_model_of_record.
  destruct (record_device_model buffer) as [s|]; [|done].
  destruct s as [|c s]; [|done]. simpl. by case_decide.
Qed.

(** C9.  [detect] is a total function (an unreadable file gives the empty
    list).  Its result is the head chosen by the three-tier priority,
    followed by the other candidates in their sorted order: the preferred
    string if it is a candidate, else the [device_model] of the decoded
    record if it is a candidate, else the first candidate in lexicographic
    order; it is empty when the pattern scan gives no candidate, whatever
    the preferred string and the record. *)
Theorem detect_priority (buffer : bytes) (preferred : option str) :
  let models := UpdateSigner.models_of buffer in
  detect buffer preferred
  = match priority_head models preferred (record_device_model buffer) with
    | Some h => h :: UpdateSigner.others h models
    | None => []
    end
  /\ (models = [] -> detect buffer preferred = [])
  /\ StronglySorted str_lt models
  /\ (forall h m, m ∈ UpdateSigner.others h models <-> m ∈ models /\ m <> h)
  /\ (forall h, UpdateSigner.others h models `sublist_of` models)
  /\ UpdateSigner.detect_device_models_in_file None preferred = [].
Proof.
  intros models.
  assert (Hne : [] ∉ models) by apply models_of_nonempty.
  assert (Hsorted : StronglySorted str_lt models) by apply sorted_set_sorted.
  assert (Heq : detect buffer preferred
    = match priority_head models preferred (record_device_model buffer) with
      | Some h => h :: UpdateSigner.others h models
      | None => []
      end).
  { unfold detect, UpdateSigner.detect_device_models_in_file, priority_head.
    fold models. rewrite !truthy_in_candidate by done.
    rewrite (candidate_signer_model buffer models Hne).
    destruct (candidate models preferred) as [p|] eqn:Ep.
    { apply candidate_Some in Ep as [-> _]. done. }
    destruct (candidate models (record_device_model buffer)) as [s|] eqn:Es.
    { apply candidate_Some in Es as [Es Hin].
      rewrite signer_model_of_record, Es.
      by destruct s as [|c s]. }
    destruct models as [|h t] eqn:Em; [done|]. cbn [falsy negb head].
    by rewrite others_head. }
  split_and!; [done| | done | | | done].
  - intros Hnil. rewrite Heq, Hnil. unfold priority_head.
    destruct preferred as [p|], (record_device_model buffer) as [s|];
      simpl; repeat case_decide; try done;
      match goal with H : _ ∈ [] |- _ => by apply elem_of_nil in H end.
  - intros h m. apply others_elem_of.
  - intros h. apply filter_sublist.
Qed.

Lemma detect_priority_witness : detect [x00] (Some [65%N]) = [].
Proof.
  apply (proj1 (proj2 (detect_priority [x00] (Some [65%N])))).
  reflexivity.
Defined.

(** ** StringReplacer: a pass and its matches *)

Lemma byte_of_N_mod (c : N) : byte_of_N (c mod 256) = byte_of_N c.
Proof. unfold byte_of_N. by rewrite N.Div0.mod_mod. Qed.

Lemma encode_utf8_ascii (s : str) :
  Forall (fun c => (c < 128)%N) s ->
  encode_utf8 s = Return (ascii_bytes s).
Proof.
  induction 1 as [|c s Hc _ IH]; [done|]. simpl. unfold utf8_char.
  destruct (N.ltb_spec c 128); [|lia]. simpl. by rewrite IH.
Qed.

Lemma encode_utf16le_ascii (s : str) :
  Forall (fun c => (c < 128)%N) s ->
  encode_utf16le s = Return (utf16le_bytes (ascii_bytes s)).
Proof.
  induction 1 as [|c s Hc _ IH]; [done|]. simpl. unfold utf16le_char.
  destruct (N.ltb_spec c 65536); [|lia].
  assert (Hs : is_surrogate c = false).
  { unfold is_surrogate. destruct (N.leb_spec 55296 c); [lia|done]. }
  rewrite Hs. simpl. rewrite IH. simpl. unfold le16.
  rewrite byte_of_N_mod, (N.div_small c 256) by lia. done.
Qed.

Lemma replacements_ascii (old_model new_model : str) :
  Forall (fun c => (c < 128)%N) old_model ->
  Forall (fun c => (c < 128)%N) new_model ->
  UpdateSigner.replacements old_model new_model
  = Return (encodings (ascii_bytes old_model) (ascii_bytes new_model)).
Proof.
  intros Ho Hn. unfold UpdateSigner.replacements.
  rewrite !encode_ascii_Return, !encode_utf8_ascii, !encode_utf16le_ascii
    by done.
  done.
Qed.

Lemma scan_skip (k : nat) (pat s : bytes) (i : nat) :
  scan k pat s i = scan 0 pat (drop k s) (i + k).
Proof.
  revert k i. induction s as [|b s IH]; intros k i.
  - by rewrite drop_nil.
  - destruct k as [|k].
    + simpl drop. by rewrite Nat.add_0_r.
    + cbn [scan drop]. rewrite IH. f_equal. lia.
Qed.

Lemma scan_find_None (pat s : bytes) (i : nat) :
  find_aux pat s i = None -> scan 0 pat s i = [].
Proof.
  revert i. induction s as [|b s IH]; intros i; [done|].
  cbn [find_aux scan]. destruct (startswith (b :: s) pat); [done|]. apply IH.
Qed.

Lemma scan_find_Some (pat s : bytes) (i p : nat) :
  pat <> [] ->
  find_aux pat s i = Some p ->
  scan 0 pat s i
  = p :: scan 0 pat (drop (p - i + length pat) s) (p + length pat).
Proof.
  intros Hne. revert i. induction s as [|b s IH]; intros i.
  - cbn [find_aux]. by destruct pat.
  - cbn [find_aux scan]. destruct (startswith (b :: s) pat).
    + intros [= <-]. f_equal. rewrite scan_skip.
      assert (0 < length pat) by (destruct pat; [done | simpl; lia]).
      replace (i - i + length pat) with (S (length pat - 1)) by lia.
      cbn [drop]. f_equal. lia.
    + intros H. pose proof (find_aux_Some _ _ _ _ H) as (Hle & _).
      rewrite (IH _ H). f_equal.
      replace (p - i + length pat) with (S (p - S i + length pat)) by lia.
      done.
Qed.

Lemma replace_loop_scan (fuel : nat) (data old_bytes new_bytes : bytes) :
  old_bytes <> [] ->
  length old_bytes = length new_bytes ->
  forall (new_data : bytes) (count start : nat),
    start <= length data ->
    length data - start < fuel ->
    UpdateSigner.replace_loop fuel data old_bytes new_bytes new_data count start
    = Return (overwrite new_bytes
                (scan 0 old_bytes (drop start data) start) new_data,
              count + length (scan 0 old_bytes (drop start data) start)).
Proof.
  intros Hne Hlen. induction fuel as [|fuel IH]; intros nd count start Hs Hf.
  { lia. }
  cbn [UpdateSigner.replace_loop]. unfold find.
  destruct (Nat.ltb_spec (length data) start); [lia|].
  destruct (find_aux old_bytes (drop start data) start) as [pos|] eqn:E.
  - pose proof (find_aux_Some _ _ _ _ E) as (Hle & Hocc & _).
    apply startswith_length in Hocc. rewrite !length_drop in Hocc.
    assert (0 < length old_bytes)
      by (destruct old_bytes; [done | simpl; lia]).
    rewrite (scan_find_Some _ _ _ _ Hne E), drop_drop.
    replace (start + (pos - start + length old_bytes))
      with (pos + length new_bytes) by lia.
    rewrite IH by lia. rewrite Hlen. cbn [length overwrite foldl].
    f_equal. f_equal. lia.
  - rewrite (scan_find_None _ _ _ E). cbn. by rewrite Nat.add_0_r.
Qed.

Lemma replace_passes_fold (fuel : nat) (data : bytes)
    (reps : list (bytes * bytes)) :
  Forall (fun rep => fst rep <> []) reps ->
  length data < fuel ->
  forall (new_data : bytes) (total : nat),
    UpdateSigner.replace_passes fuel data reps new_data total
    = Return (foldl (pass data) (new_data, total) reps).
Proof.
  intros Hreps Hf. induction Hreps as [|[ob nb] reps Hne _ IH];
    intros nd total; [done|].
  cbn [UpdateSigner.replace_passes foldl]. unfold pass at 2. cbn [fst snd].
  destruct (Nat.eqb_spec (length ob) (length nb)) as [Hlen|Hlen]; cbn [negb].
  - rewrite replace_loop_scan by (done || lia). cbn [bind]. rewrite IH.
    unfold matches. rewrite drop_0. do 3 f_equal.
    destruct (Nat.ltb_spec 0 (0 + length (scan 0 ob data 0))); lia.
  - apply IH.
Qed.

Lemma ascii_bytes_nonempty (s : str) : s <> [] -> ascii_bytes s <> [].
Proof. by destruct s. Qed.

Lemma encodings_nonempty (old_a new_a : bytes) :
  old_a <> [] -> Forall (fun rep => fst rep <> []) (encodings old_a new_a).
Proof.
  intros Hne. unfold encodings. repeat constructor; cbn [fst]; try done.
  - by destruct old_a.
  - by destruct old_a.
  - by destruct old_a.
Qed.

Lemma ascii_forallb (s : str) :
  forallb (fun c => (c <? 128)%N) s = true <-> Forall (fun c => (c < 128)%N) s.
Proof.
  rewrite forallb_forall, Forall_forall. split; intros H c Hc.
  - apply N.ltb_lt, H. by apply list_elem_of_In.
  - apply N.ltb_lt, H. by apply list_elem_of_In.
Qed.

Lemma replace_all_ascii_fold (fuel : nat) (data : bytes)
    (old_model new_model : str) :
  old_model <> [] -> new_model <> [] -> old_model <> new_model ->
  Forall (fun c => (c < 128)%N) old_model ->
  Forall (fun c => (c < 128)%N) new_model ->
  length data < fuel ->
  UpdateSigner.replace_all_occurrences fuel data old_model new_model
  = Return (foldl (pass data) (data, 0)
              (encodings (ascii_bytes old_model) (ascii_bytes new_model))).
Proof.
  intros Ho Hn Hne Hao Han Hf.
  unfold UpdateSigner.replace_all_occurrences.
  rewrite guard_open by done.
  rewrite replacements_ascii by done. cbn [bind].
  apply replace_passes_fold; [|done].
  by apply encodings_nonempty, ascii_bytes_nonempty.
Qed.

(** Against C1 as stated.  On ["AAB"] with the tokens ["AB"] and ["BA"],
    the first pass writes ["BA"] at index 1.  A second pass over the current
    buffer ["ABA"] would find ["AB"] at index 0 and give ["BAA"]; the
    function searches the buffer it was given, finds index 1 again and
    returns ["ABA"]. *)
Lemma later_pass_misses_earlier_writes :
  let data := ["A"; "A"; "B"]%byte in
  let old_token := [65; 66]%N in
  let new_token := [66; 65]%N in
  UpdateSigner.replace_all_occurrences 4 data old_token new_token
  = Return (["A"; "B"; "A"]%byte, 2)
  /\ SpecWording.replace_all 4 data old_token new_token
     = Return (["B"; "A"; "A"]%byte, 2)
  /\ UpdateSigner.replace_all_occurrences 4 data old_token new_token
     <> SpecWording.replace_all 4 data old_token new_token.
Proof. split_and!; [reflexivity | reflexivity | discriminate]. Qed.

(** C1, amended.  For distinct non-empty tokens (of ASCII characters, else
    the call raises), [replace_all_occurrences] runs its five passes in the
    order ASCII, UTF-8, UTF-16LE, ASCII with a trailing zero byte, UTF-8 with
    a trailing zero byte.  Every pass takes its matches, leftmost first and
    without overlap, from the buffer that was given to the function, not from
    the buffer as the passes before left it; the writes of all passes go to
    one working copy, and the count is the sum of the matches of the
    passes. *)
Theorem replace_all_passes_on_input (fuel : nat) (data : bytes)
    (old_model new_model : str) :
  old_model <> [] -> new_model <> [] -> old_model <> new_model ->
  length data < fuel ->
  UpdateSigner.replace_all_occurrences fuel data old_model new_model
  = if forallb (fun c => (c <? 128)%N) (old_model ++ new_model)
    then Return (foldl (pass data) (data, 0)
                   (encodings (ascii_bytes old_model) (ascii_bytes new_model)))
    else Raise UnicodeEncodeError.
Proof.
  intros Ho Hn Hne Hf.
  destruct (forallb _ (old_model ++ new_model)) eqn:E.
  - apply ascii_forallb, Forall_app in E as [Hao Han].
    by apply replace_all_ascii_fold.
  - unfold UpdateSigner.replace_all_occurrences.
    rewrite guard_open by done.
    rewrite replacements_Raise; [done|].
    destruct (ascii_or_not (old_model ++ new_model)) as [H|H]; [|done].
    apply ascii_forallb in H. congruence.
Qed.

Lemma replace_all_passes_on_input_witness :
  UpdateSigner.replace_all_occurrences 4 ["A"; "A"; "B"]%byte
    [65; 66]%N [66; 65]%N
  = Return (foldl (pass ["A"; "A"; "B"]%byte) (["A"; "A"; "B"]%byte, 0)
              (encodings (ascii_bytes [65; 66]%N) (ascii_bytes [66; 65]%N))).
Proof.
  apply (replace_all_passes_on_input 4 ["A"; "A"; "B"]%byte
           [65; 66]%N [66; 65]%N).
  - discriminate.
  - discriminate.
  - discriminate.
  - simpl. lia.
Defined.

(** ** Occurrences and overlaps *)

Lemma occurs_at_lookup (pat data : bytes) (p : nat) :
  occurs_at pat data p = true
  <-> forall k, k < length pat -> data !! (p + k) = pat !! k.
Proof.
  unfold occurs_at. rewrite startswith_prefix. split.
  - intros [r Hr] k Hk. rewrite <- lookup_drop, Hr. by apply lookup_app_l.
  - intros H. exists (drop (length pat) (drop p data)).
    rewrite <- (take_drop (length pat) (drop p data)) at 1. f_equal.
    apply list_eq. intros k. destruct (decide (k < length pat)).
    + rewrite lookup_take_lt, lookup_drop by done. by apply H.
    + rewrite lookup_take_ge by lia. symmetry. apply lookup_ge_None. lia.
Qed.

Lemma occurrences_from_elem_of (pat s : bytes) (i p : nat) :
  p ∈ occurrences_from pat s i
  <-> i <= p < i + length s /\ startswith (drop (p - i) s) pat = true.
Proof.
  revert i. induction s as [|b s IH]; intros i; cbn [occurrences_from length].
  - rewrite elem_of_nil. split; [done | lia].
  - assert (Hstep : p ∈ occurrences_from pat s (S i)
                    <-> S i <= p < i + S (length s)
                        /\ startswith (drop (p - i) (b :: s)) pat = true).
    { rewrite IH. split.
      - intros [Hr Hs]. split; [lia|].
        by replace (p - i) with (S (p - S i)) by lia.
      - intros [Hr Hs]. split; [lia|].
        by replace (p - i) with (S (p - S i)) in Hs by lia. }
    destruct (startswith (b :: s) pat) eqn:E.
    + rewrite elem_of_cons, Hstep. split.
      * intros [->|[Hr Hs]]; [|split; [lia | done]].
        rewrite Nat.sub_diag. split; [lia | done].
      * intros [Hr Hs]. destruct (decide (p = i)); [by left | right].
        split; [lia | done].
    + rewrite Hstep. split; [intros [Hr Hs]; split; [lia | done]|].
      intros [Hr Hs]. split; [|done]. destruct (decide (p = i)) as [->|]; [|lia].
      rewrite Nat.sub_diag in Hs. simpl in Hs. congruence.
Qed.

Lemma occurrences_elem_of (pat data : bytes) (p : nat) :
  pat <> [] ->
  p ∈ occurrences pat data <-> occurs_at pat data p = true.
Proof.
  intros Hne. unfold occurrences. rewrite occurrences_from_elem_of.
  rewrite Nat.sub_0_r. fold (occurs_at pat data p). split; [by intros [_ ?]|].
  intros H. split; [|done]. apply occurs_at_bound in H; [|done].
  destruct pat; [done | simpl in H; lia].
Qed.

Lemma overlap_of_occurrences (P Q data : bytes) (p d : nat) :
  occurs_at P data p = true ->
  occurs_at Q data (p + d) = true ->
  overlap_ok P Q d = true.
Proof.
  rewrite !occurs_at_lookup. intros HP HQ.
  unfold overlap_ok. apply forallb_forall. intros k Hk.
  apply in_seq in Hk.
  destruct (P !! (d + k)) as [a|] eqn:Ea; [|done].
  destruct (Q !! k) as [b|] eqn:Eb; [|done].
  apply byte_eqb_eq.
  assert (Hlt : d + k < length P) by (by eapply lookup_lt_Some).
  specialize (HP (d + k) Hlt). specialize (HQ k ltac:(lia)).
  rewrite Ea in HP. rewrite Eb in HQ.
  replace (p + d + k) with (p + (d + k)) in HQ by lia. congruence.
Qed.

Lemma never_inside_apart (P Q data : bytes) (p q : nat) :
  never_inside P Q = true ->
  occurs_at P data p = true ->
  occurs_at Q data q = true ->
  p <= q -> p + length P <= q.
Proof.
  intros Hni HP HQ Hle.
  destruct (Nat.le_gt_cases (p + length P) q) as [|Hlt]; [done|exfalso].
  unfold never_inside in Hni. rewrite forallb_forall in Hni.
  specialize (Hni (q - p)). rewrite in_seq in Hni.
  specialize (Hni ltac:(lia)).
  rewrite (overlap_of_occurrences P Q data p (q - p)) in Hni; [done|done|].
  by replace (p + (q - p)) with q by lia.
Qed.

Lemma unbordered_apart (pat data : bytes) (p q : nat) :
  unbordered pat = true ->
  occurs_at pat data p = true ->
  occurs_at pat data q = true ->
  p < q -> p + length pat <= q.
Proof.
  intros Hu HP HQ Hlt.
  destruct (Nat.le_gt_cases (p + length pat) q) as [|Hgt]; [done|exfalso].
  unfold unbordered in Hu. rewrite forallb_forall in Hu.
  specialize (Hu (q - p)). rewrite in_seq in Hu.
  specialize (Hu ltac:(lia)).
  rewrite (overlap_of_occurrences pat pat data p (q - p)) in Hu; [done|done|].
  by replace (p + (q - p)) with q by lia.
Qed.

Lemma unbordered_cover_unique (pat data : bytes) (p q i : nat) :
  unbordered pat = true ->
  occurs_at pat data p = true ->
  occurs_at pat data q = true ->
  covers p (length pat) i -> covers q (length pat) i -> p = q.
Proof.
  unfold covers. intros Hu HP HQ Hp Hq.
  destruct (Nat.lt_trichotomy p q) as [Hlt|[->|Hlt]]; [|done|].
  - pose proof (unbordered_apart _ _ _ _ Hu HP HQ Hlt). lia.
  - pose proof (unbordered_apart _ _ _ _ Hu HQ HP Hlt). lia.
Qed.

Lemma never_inside_cover (P Q data : bytes) (p q i : nat) :
  never_inside P Q = true ->
  never_inside Q P = true ->
  occurs_at P data p = true ->
  occurs_at Q data q = true ->
  covers p (length P) i -> covers q (length Q) i -> False.
Proof.
  unfold covers. intros H1 H2 HP HQ Hp Hq.
  destruct (Nat.le_gt_cases p q) as [Hle|Hgt].
  - pose proof (never_inside_apart _ _ _ _ _ H1 HP HQ Hle). lia.
  - pose proof (never_inside_apart _ _ _ _ _ H2 HQ HP ltac:(lia)). lia.
Qed.

Lemma scan_occurrences_from (pat : bytes) :
  unbordered pat = true ->
  forall (s : bytes) (k i : nat),
    (forall j, j < k -> startswith (drop j s) pat = false) ->
    scan k pat s i = occurrences_from pat s i.
Proof.
  intros Hu. induction s as [|b s IH]; intros k i Hk; [done|].
  cbn [scan occurrences_from]. destruct k as [|k].
  - destruct (startswith (b :: s) pat) eqn:E.
    + f_equal. apply IH. intros j Hj.
      destruct (startswith (drop j s) pat) eqn:Ej; [exfalso|done].
      pose proof (unbordered_apart pat (b :: s) 0 (S j) Hu E Ej ltac:(lia)).
      lia.
    + apply IH. intros j Hj. lia.
  - pose proof (Hk 0 ltac:(lia)) as H0. rewrite drop_0 in H0. rewrite H0.
    apply IH. intros j Hj. apply (Hk (S j)). lia.
Qed.

Lemma matches_occurrences (pat data : bytes) :
  unbordered pat = true -> matches data pat = occurrences pat data.
Proof.
  intros Hu. apply scan_occurrences_from; [done|]. intros j Hj. lia.
Qed.

(** ** The writes of a pass *)

Lemma overwrite_cons (nb : bytes) (p : nat) (ps : list nat) (nd : bytes) :
  overwrite nb (p :: ps) nd
  = overwrite nb ps (set_slice nd p (p + length nb) nb).
Proof. reflexivity. Qed.

Lemma overwrite_length (nb : bytes) (ps : list nat) (nd : bytes) :
  (forall p, p ∈ ps -> p + length nb <= length nd) ->
  length (overwrite nb ps nd) = length nd.
Proof.
  revert nd. induction ps as [|p ps IH]; intros nd Hin; [done|].
  rewrite overwrite_cons.
  assert (Hp : p + length nb <= length nd) by (apply Hin; left).
  rewrite IH; [by apply set_slice_length|].
  intros q Hq. rewrite set_slice_length by done. apply Hin. by right.
Qed.

Lemma overwrite_cases (nb : bytes) (ps : list nat) (nd : bytes) (i : nat) :
  (forall p, p ∈ ps -> p + length nb <= length nd) ->
  (exists p, p ∈ ps /\ covers p (length nb) i
             /\ overwrite nb ps nd !! i = nb !! (i - p))
  \/ ((forall p, p ∈ ps -> ~ covers p (length nb) i)
      /\ overwrite nb ps nd !! i = nd !! i).
Proof.
  revert nd. induction ps as [|p ps IH]; intros nd Hin.
  { right. split; [|done]. by intros p ?%elem_of_nil. }
  rewrite overwrite_cons.
  assert (Hp : p + length nb <= length nd) by (apply Hin; left).
  destruct (IH (set_slice nd p (p + length nb) nb)) as [(q & Hq & Hc & Hv)|[Hno Hv]].
  { intros q Hq. rewrite set_slice_length by done. apply Hin. by right. }
  - left. exists q. split_and!; [by right | done | done].
  - rewrite set_slice_lookup in Hv by done. case_decide as Hcov.
    + left. exists p. split_and!; [by left | done | done].
    + right. split; [|done]. intros q [->|Hq]%elem_of_cons; [done|by apply Hno].
Qed.

Lemma pass_cases (ob nb data nd : bytes) :
  unbordered ob = true ->
  ob <> [] ->
  length ob = length nb ->
  length nd = length data ->
  length (overwrite nb (matches data ob) nd) = length data
  /\ forall i,
       (exists p, occurs_at ob data p = true /\ covers p (length ob) i
                  /\ overwrite nb (matches data ob) nd !! i = nb !! (i - p))
       \/ ((forall p, occurs_at ob data p = true -> ~ covers p (length ob) i)
           /\ overwrite nb (matches data ob) nd !! i = nd !! i).
Proof.
  intros Hu Hne Hlen Hnd. rewrite (matches_occurrences _ _ Hu).
  assert (Hin : forall p, p ∈ occurrences ob data ->
                          p + length nb <= length nd).
  { intros p Hp%occurrences_elem_of; [|done].
    apply occurs_at_bound in Hp; [|done]. lia. }
  split; [by rewrite overwrite_length|].
  intros i. destruct (overwrite_cases nb (occurrences ob data) nd i Hin)
    as [(p & Hp & Hc & Hv)|[Hno Hv]].
  - left. exists p. rewrite Hlen. split_and!; [|done|done].
    by apply occurrences_elem_of in Hp.
  - right. split; [|done]. intros p Hp. rewrite Hlen. apply Hno.
    by apply occurrences_elem_of.
Qed.

Lemma utf16le_bytes_length (a : bytes) :
  length (utf16le_bytes a) = 2 * length a.
Proof.
  unfold utf16le_bytes. induction a as [|b a IH]; [done|].
  cbn [flat_map app length]. rewrite IH. lia.
Qed.

Lemma occurs_app_nul (a data : bytes) (z : nat) :
  occurs_at (a ++ [x00]) data z = true ->
  occurs_at a data z = true /\ data !! (z + length a) = Some x00.
Proof.
  rewrite !occurs_at_lookup. intros H. split.
  - intros k Hk. rewrite H by (rewrite length_app; simpl; lia).
    by apply lookup_app_l.
  - rewrite H by (rewrite length_app; simpl; lia).
    by rewrite list_lookup_middle.
Qed.

Lemma no_nul_lookup (a : bytes) (k : nat) :
  forallb (fun b => negb (Byte.eqb b x00)) a = true -> a !! k <> Some x00.
Proof.
  rewrite forallb_forall. intros H Hk.
  apply list_elem_of_lookup_2, list_elem_of_In, H in Hk. done.
Qed.

Lemma zeros_kept_lookup (ow nw : bytes) (k : nat) :
  zeros_kept ow nw = true -> ow !! k = Some x00 -> nw !! k = Some x00.
Proof.
  unfold zeros_kept. rewrite forallb_forall. intros H Hk.
  specialize (H k). rewrite in_seq, Hk in H.
  specialize (H ltac:(apply lookup_lt_Some in Hk; lia)). simpl in H.
  destruct (nw !! k) as [c|]; [|done]. by apply byte_eqb_eq in H as ->.
Qed.

Lemma pass_same_length (data nd : bytes) (n : nat) (ob nb : bytes) :
  length ob = length nb ->
  pass data (nd, n) (ob, nb)
  = (overwrite nb (matches data ob) nd, n + length (matches data ob)).
Proof. intros H. unfold pass. cbn [fst snd]. by rewrite H, Nat.eqb_refl. Qed.

Section Passes.

Variables old_a new_a data : bytes.

Hypothesis Hlen : length old_a = length new_a.
Hypothesis Hne : old_a <> [].
Hypothesis HuA : unbordered old_a = true.
Hypothesis HuW : unbordered (utf16le_bytes old_a) = true.
Hypothesis HuZ : unbordered (old_a ++ [x00]) = true.
Hypothesis HAW : never_inside old_a (utf16le_bytes old_a) = true.
Hypothesis HWA : never_inside (utf16le_bytes old_a) old_a = true.
Hypothesis Hnz : forallb (fun b => negb (Byte.eqb b x00)) old_a = true.
Hypothesis Hzk :
  zeros_kept (utf16le_bytes old_a) (utf16le_bytes new_a) = true.

Lemma ascii_pass (nd : bytes) :
  length nd = length data ->
  (forall i, (forall p, occurs_at old_a data p = true ->
                        ~ covers p (length old_a) i) ->
             nd !! i = data !! i) ->
  ascii_replaced old_a new_a data (overwrite new_a (matches data old_a) nd).
Proof.
  intros Hnd Hframe.
  destruct (pass_cases old_a new_a data nd HuA Hne Hlen Hnd) as [Hl Hc].
  split; [done|]. intros i.
  destruct (Hc i) as [(p & Hp & Hcov & Hv)|[Hno Hv]].
  - split.
    + intros p' Hp' Hcov'. rewrite Hv.
      by rewrite (unbordered_cover_unique _ _ _ _ _ HuA Hp' Hp Hcov' Hcov).
    + intros Hno. by destruct (Hno p Hp Hcov).
  - split.
    + intros p' Hp' Hcov'. by destruct (Hno p' Hp' Hcov').
    + intros _. rewrite Hv. by apply Hframe.
Qed.

Lemma utf16_pass (nd : bytes) :
  ascii_replaced old_a new_a data nd ->
  all_replaced old_a new_a data
    (overwrite (utf16le_bytes new_a) (matches data (utf16le_bytes old_a)) nd).
Proof.
  intros [Hnd Hinv].
  assert (HneW : utf16le_bytes old_a <> []) by (by destruct old_a).
  assert (HlenW : length (utf16le_bytes old_a) = length (utf16le_bytes new_a))
    by (rewrite !utf16le_bytes_length; lia).
  destruct (pass_cases _ _ data nd HuW HneW HlenW Hnd) as [Hl Hc].
  split; [done|]. intros i. destruct (Hinv i) as [HA HF].
  destruct (Hc i) as [(q & Hq & Hcov & Hv)|[Hno Hv]].
  - split_and!.
    + intros p Hp Hcp.
      destruct (never_inside_cover _ _ _ _ _ _ HAW HWA Hp Hq Hcp Hcov).
    + intros q' Hq' Hcq'. rewrite Hv.
      by rewrite (unbordered_cover_unique _ _ _ _ _ HuW Hq' Hq Hcq' Hcov).
    + intros _ HnoW. by destruct (HnoW q Hq Hcov).
  - split_and!.
    + intros p Hp Hcp. rewrite Hv. by apply HA.
    + intros q Hq Hcq. by destruct (Hno q Hq Hcq).
    + intros HnoA _. rewrite Hv. by apply HF.
Qed.

Lemma nul_pass (nd : bytes) :
  all_replaced old_a new_a data nd ->
  all_replaced old_a new_a data
    (overwrite (new_a ++ [x00]) (matches data (old_a ++ [x00])) nd).
Proof.
  intros [Hnd Hinv].
  assert (HneZ : old_a ++ [x00] <> []) by (by destruct old_a).
  assert (HlenZ : length (old_a ++ [x00]) = length (new_a ++ [x00]))
    by (rewrite !length_app; simpl; lia).
  destruct (pass_cases _ _ data nd HuZ HneZ HlenZ Hnd) as [Hl Hc].
  split; [done|]. intros i. destruct (Hinv i) as (HA & HW & HF).
  destruct (Hc i) as [(z & Hz & Hcov & Hv)|[Hno Hv]]; [|by rewrite Hv].
  destruct (occurs_app_nul _ _ _ Hz) as [HzA Hz0].
  unfold covers in Hcov. rewrite length_app in Hcov. simpl in Hcov.
  destruct (decide (i < z + length old_a)) as [Hin|Hout].
  - assert (Hcz : covers z (length old_a) i) by (unfold covers; lia).
    assert (Hval : (new_a ++ [x00]) !! (i - z) = new_a !! (i - z))
      by (apply lookup_app_l; lia).
    split_and!.
    + intros p Hp Hcp. rewrite Hv, Hval.
      by rewrite (unbordered_cover_unique _ _ _ _ _ HuA Hp HzA Hcp Hcz).
    + intros q Hq Hcq.
      destruct (never_inside_cover _ _ _ _ _ _ HAW HWA HzA Hq Hcz Hcq).
    + intros HnoA _. by destruct (HnoA z HzA Hcz).
  - assert (Hi : i = z + length old_a) by lia.
    assert (Hval : (new_a ++ [x00]) !! (i - z) = Some x00).
    { replace (i - z) with (length new_a) by lia. apply list_lookup_middle.
      done. }
    rewrite <- Hi in Hz0. split_and!.
    + intros p Hp Hcp. exfalso.
      apply occurs_at_lookup with (k := i - p) in Hp; [|unfold covers in Hcp; lia].
      replace (p + (i - p)) with i in Hp by (unfold covers in Hcp; lia).
      rewrite Hz0 in Hp. by eapply no_nul_lookup.
    + intros q Hq Hcq. rewrite Hv, Hval. symmetry.
      apply (zeros_kept_lookup _ _ _ Hzk).
      apply occurs_at_lookup with (k := i - q) in Hq; [|unfold covers in Hcq; lia].
      replace (q + (i - q)) with i in Hq by (unfold covers in Hcq; lia).
      by rewrite <- Hq.
    + intros _ _. by rewrite Hv, Hval.
Qed.

Lemma five_passes :
  exists out,
    foldl (pass data) (data, 0) (encodings old_a new_a)
    = (out,
       2 * length (occurrences old_a data)
       + length (occurrences (utf16le_bytes old_a) data)
       + 2 * length (occurrences (old_a ++ [x00]) data))
    /\ all_replaced old_a new_a data out.
Proof.
  exists (overwrite (new_a ++ [x00]) (matches data (old_a ++ [x00]))
            (overwrite (new_a ++ [x00]) (matches data (old_a ++ [x00]))
               (overwrite (utf16le_bytes new_a)
                  (matches data (utf16le_bytes old_a))
                  (overwrite new_a (matches data old_a)
                     (overwrite new_a (matches data old_a) data))))).
  split.
  - unfold encodings. cbn [foldl].
    rewrite !pass_same_length
      by (rewrite ?utf16le_bytes_length, ?length_app; simpl; lia).
    rewrite !(matches_occurrences _ _ HuA), !(matches_occurrences _ _ HuW),
      !(matches_occurrences _ _ HuZ).
    f_equal. lia.
  - do 2 apply nul_pass. apply utf16_pass.
    assert (H1 : ascii_replaced old_a new_a data
                   (overwrite new_a (matches data old_a) data))
      by (by apply ascii_pass).
    destruct H1 as [Hl1 H1]. apply ascii_pass; [done|].
    intros i Hno. by apply H1.
Qed.

End Passes.

(** ** The scenario of the two 13-character tokens *)

Lemma replaced_occurrence (ob nb data out : bytes) (p : nat) :
  length ob = length nb ->
  (forall i, covers p (length ob) i -> out !! i = nb !! (i - p)) ->
  occurs_at nb out p = true.
Proof.
  intros Hlen H. apply occurs_at_lookup. intros k Hk.
  rewrite H by (unfold covers; lia). f_equal. lia.
Qed.

(** Against C3 as stated.  The old token followed by a zero byte: one ASCII
    (and UTF-8) occurrence, no UTF-16LE occurrence, one replacement made, and
    a count of 4, because the ASCII, UTF-8, ASCII+NUL and UTF-8+NUL passes
    each find the same occurrence in the input. *)
Lemma count_exceeds_occurrences :
  let old_a := ascii_bytes old_token in
  let buffer := old_a ++ [x00] in
  replace_all 15 buffer old_token new_token
  = Return (ascii_bytes new_token ++ [x00], 4)
  /\ occurrences old_a buffer = [0]
  /\ occurrences (utf16le_bytes old_a) buffer = []
  /\ 4 <> length (occurrences old_a buffer)
          + length (occurrences (utf16le_bytes old_a) buffer).
Proof. split_and!; [reflexivity | reflexivity | reflexivity | simpl; lia]. Qed.

(** C3, amended.  With the tokens ["F711BXXS8HXF2"] and ["F711BXXSFJYGB"],
    whose UTF-8 bytes are their ASCII bytes, [replace_all] returns on every
    buffer: the output has the length of the input, holds the new token at
    every index where the input holds the old one, in ASCII (UTF-8) and in
    UTF-16LE, and is the input outside these occurrences.  The count is the
    sum of the matches of the five passes over the input: twice the number
    of ASCII occurrences, plus the number of UTF-16LE occurrences, plus twice
    the number of ASCII occurrences followed by a zero byte. *)
Theorem replace_all_scenario (fuel : nat) (buffer : bytes) :
  length buffer < fuel ->
  let old_a := ascii_bytes old_token in
  let new_a := ascii_bytes new_token in
  encode_utf8 old_token = Return old_a
  /\ encode_utf16le old_token = Return (utf16le_bytes old_a)
  /\ exists out count,
       replace_all fuel buffer old_token new_token = Return (out, count)
       /\ length out = length buffer
       /\ (forall p, occurs_at old_a buffer p = true ->
                     occurs_at new_a out p = true)
       /\ (forall q, occurs_at (utf16le_bytes old_a) buffer q = true ->
                     occurs_at (utf16le_bytes new_a) out q = true)
       /\ (forall i,
             (forall p, occurs_at old_a buffer p = true ->
                        ~ covers p (length old_a) i) ->
             (forall q, occurs_at (utf16le_bytes old_a) buffer q = true ->
                        ~ covers q (length (utf16le_bytes old_a)) i) ->
             out !! i = buffer !! i)
       /\ count = 2 * length (occurrences old_a buffer)
                  + length (occurrences (utf16le_bytes old_a) buffer)
                  + 2 * length (occurrences (old_a ++ [x00]) buffer).
Proof.
  intros Hf old_a new_a. split; [reflexivity|]. split; [reflexivity|].
  destruct (five_passes old_a new_a buffer) as (out & Hfold & Hlen & Hinv);
    try reflexivity; [discriminate|].
  exists out, (2 * length (occurrences old_a buffer)
               + length (occurrences (utf16le_bytes old_a) buffer)
               + 2 * length (occurrences (old_a ++ [x00]) buffer)).
  split_and!; [|done| | | |done].
  - unfold replace_all.
    rewrite replace_all_ascii_fold;
      [by f_equal|by intros [=]|by intros [=]|by intros [=]| | |done].
    + apply ascii_forallb. reflexivity.
    + apply ascii_forallb. reflexivity.
  - intros p Hp. apply (replaced_occurrence old_a new_a buffer).
    + reflexivity.
    + intros i Hi. by apply (Hinv i).
  - intros q Hq.
    apply (replaced_occurrence (utf16le_bytes old_a) (utf16le_bytes new_a)
             buffer).
    + reflexivity.
    + intros i Hi. by apply (Hinv i).
  - intros i HnoA HnoW. by apply (Hinv i).
Qed.

Lemma replace_all_scenario_witness :
  let old_a := ascii_bytes old_token in
  let new_a := ascii_bytes new_token in
  let buffer := old_a ++ [x00] in
  encode_utf8 old_token = Return old_a
  /\ encode_utf16le old_token = Return (utf16le_bytes old_a)
  /\ exists out count,
       replace_all 15 buffer old_token new_token = Return (out, count)
       /\ length out = length buffer
       /\ (forall p, occurs_at old_a buffer p = true ->
                     occurs_at new_a out p = true)
       /\ (forall q, occurs_at (utf16le_bytes old_a) buffer q = true ->
                     occurs_at (utf16le_bytes new_a) out q = true)
       /\ (forall i,
             (forall p, occurs_at old_a buffer p = true ->
                        ~ covers p (length old_a) i) ->
             (forall q, occurs_at (utf16le_bytes old_a) buffer q = true ->
                        ~ covers q (length (utf16le_bytes old_a)) i) ->
             out !! i = buffer !! i)
       /\ count = 2 * length (occurrences old_a buffer)
                  + length (occurrences (utf16le_bytes old_a) buffer)
                  + 2 * length (occurrences (old_a ++ [x00]) buffer).
Proof.
  intros old_a new_a buffer.
  apply (replace_all_scenario 15 buffer). simpl. lia.
Defined.

(** ** The scenarios of the specification, run on the embedding *)

Lemma update_single_file_writes_patch (fuel : nat) (data : bytes)
    (old_pos : nat) (old_signer new_record : bytes)
    (preferred_model : option str) :
  UpdateSigner.find_signer_section (Some data) = Located old_pos old_signer ->
  length new_record = 128 ->
  UpdateSigner.update_single_file fuel (Some data) (Some new_record)
    None None preferred_model false
  = Return {| UpdateSigner.success := true;
              UpdateSigner.written :=
                Some (set_slice data old_pos (old_pos + 128) new_record) |}.
Proof.
  intros Hfind Hlen. unfold UpdateSigner.update_single_file. rewrite Hfind.
  destruct (find_signer_section_truthy _ _ _ Hfind) as [_ ->].
  assert (Hne : falsy new_record = false)
    by (apply falsy_false; intros ->; discriminate).
  cbn [falsy_opt negb andb default]. rewrite Hne. cbn [negb]. unfold id.
  unfold UpdateSigner.patch. rewrite Hlen. reflexivity.
Qed.

Example scenario_locate_decode :
  let record :=
    signer_pattern ++ replicate 21 x00
    ++ ascii_bytes old_token ++ replicate 83 x00 in
  let buffer := replicate 50 x00 ++ record ++ replicate 22 x00 in
  length buffer = 200
  /\ locate buffer = inl 50
  /\ UpdateSigner.find_signer_section (Some buffer) = Located 50 record
  /\ option_map device_model (UpdateSigner.parse_signer_section record)
     = Some old_token.
Proof. by vm_compute. Qed.

Example scenario_detect :
  let record :=
    signer_pattern ++ replicate 21 x00
    ++ ascii_bytes new_token ++ replicate 83 x00 in
  let buffer := ascii_bytes old_token ++ [x00] ++ record in
  detect buffer None = [new_token; old_token].
Proof. by vm_compute. Qed.

(** * Further properties of the two scripts *)

(** ** What [find_signer_section] hands to [parse_signer_section] *)

(** X1.  Whatever [find_signer_section] returns as the record of a file is
    accepted by the decoder of both scripts: it is 128 bytes long, and the
    update tool and the extraction tool decode it to the same fields. *)
Theorem parse_after_find (file : option bytes) (p : nat) (sd : bytes) :
  UpdateSigner.find_signer_section file = Located p sd ->
  length sd = 128
  /\ UpdateSigner.parse_signer_section sd = Some (parse_fields sd)
  /\ ExtractParams.parse_signer_section sd = Some (parse_fields sd).
Proof.
  destruct file as [data|]; [|done]. intros Hfind.
  destruct (find_signer_section_truthy _ _ _ Hfind) as [Hlen _].
  rewrite update_parse_unfold, extract_parse_unfold, Hlen. done.
Qed.

Lemma parse_after_find_witness :
  let sd := signer_pattern ++ replicate 117 x00 in
  length sd = 128
  /\ UpdateSigner.parse_signer_section sd = Some (parse_fields sd)
  /\ ExtractParams.parse_signer_section sd = Some (parse_fields sd).
Proof.
  intros sd. apply (parse_after_find (Some sd) 0 sd). reflexivity.
Defined.

Lemma split_nul_first_app (a r : bytes) :
  forallb (fun b => negb (Byte.eqb b x00)) a = true ->
  split_nul_first (a ++ r) = a ++ split_nul_first r.
Proof.
  induction a as [|b a IH]; [done|]. cbn [forallb app split_nul_first].
  intros [Hb Ha]%andb_true_iff. apply negb_true_iff in Hb. rewrite Hb.
  by rewrite IH.
Qed.

Lemma decode_ascii_ignore_app (a r : bytes) :
  decode_ascii_ignore (a ++ r) = decode_ascii_ignore a ++ decode_ascii_ignore r.
Proof. unfold decode_ascii_ignore. by rewrite List.filter_app, map_app. Qed.

Lemma occurs_at_slice (pat data : bytes) (p n : nat) :
  occurs_at pat data p = true ->
  length pat <= n ->
  exists r, slice data p (p + n) = pat ++ r.
Proof.
  intros Hocc Hn. unfold occurs_at in Hocc.
  apply startswith_prefix in Hocc as [r Hr].
  exists (take (n - length pat) r). unfold slice.
  replace (p + n - p) with n by lia. rewrite Hr.
  rewrite take_app. f_equal. apply take_ge. lia.
Qed.

(** X2.  The [signer_version] decoded from a record that
    [find_signer_section] located always begins with ["SignerVer02"]: the
    marker is the start of the field. *)
Theorem signer_version_starts_with_marker (file : option bytes) (p : nat)
    (sd : bytes) :
  UpdateSigner.find_signer_section file = Located p sd ->
  str_of_bytes signer_pattern `prefix_of` signer_version (parse_fields sd).
Proof.
  destruct file as [data|]; [|done].
  intros ([Hocc _] & Hle & ->)%find_signer_section_Located.
  destruct (occurs_at_slice signer_pattern data p 128 Hocc) as [r Hr];
    [simpl; lia|].
  cbn [parse_fields signer_version]. unfold field, slice at 1.
  rewrite drop_0, Hr. replace (15 - 0) with (length signer_pattern + 4)
    by reflexivity.
  rewrite take_app_add', split_nul_first_app, decode_ascii_ignore_app
    by reflexivity.
  by eexists.
Qed.

Lemma signer_version_starts_with_marker_witness :
  str_of_bytes signer_pattern
  `prefix_of` signer_version (parse_fields (signer_pattern ++ replicate 117 x00)).
Proof.
  apply (signer_version_starts_with_marker
           (Some (signer_pattern ++ replicate 117 x00)) 0).
  reflexivity.
Defined.

(** ** The decoded fields *)

Lemma to_N_zero (b : byte) : Byte.to_N b = 0%N -> b = x00.
Proof.
  intros H. pose proof (Byte.of_to_N b) as Hb. rewrite H in Hb.
  by injection Hb.
Qed.

Lemma field_bounded (sd : bytes) (i j : nat) :
  length (field sd i j) <= j - i
  /\ Forall (fun c => (0 < c < 128)%N) (field sd i j).
Proof.
  unfold field. split.
  - unfold decode_ascii_ignore. rewrite length_map.
    etransitivity; [apply (sublist_length _ _ (filter_sublist _ _))|].
    etransitivity; [apply prefix_length, split_nul_first_prefix|].
    unfold slice. rewrite length_take. lia.
  - generalize (slice sd i j). intros s. unfold decode_ascii_ignore.
    induction s as [|b s IH]; cbn [split_nul_first]; [constructor|].
    destruct (Byte.eqb b x00) eqn:Eb; [constructor|].
    cbn [List.filter]. destruct (is_ascii b) eqn:Ea; [|done].
    cbn [map]. constructor; [|done]. unfold is_ascii in Ea.
    apply N.ltb_lt in Ea. split; [|done].
    destruct (N.eq_dec (Byte.to_N b) 0%N) as [E0|]; [|lia].
    apply to_N_zero in E0. subst b. done.
Qed.

(** X3.  The decoded fields are bounded by their ranges, whatever the bytes
    of the record: [signer_version] and [number] have at most 15 characters,
    [device_model] and [software_model] at most 31, [date] at most 14 and
    [software_version] at most 15; every character is a non-NUL ASCII
    character; and [software_version] is never the empty string. *)
Theorem parsed_fields_bounded (sd : bytes) :
  let md := parse_fields sd in
  Forall (fun '(s, n) => length s <= n /\ Forall (fun c => (0 < c < 128)%N) s)
    [(signer_version md, 15); (number md, 15); (device_model md, 31);
     (date md, 14); (software_model md, 31); (software_version md, 15)]
  /\ software_version md <> [].
Proof.
  cbn [parse_fields signer_version number device_model date software_model
       software_version].
  split.
  - do 5 (apply Forall_cons; split; [apply field_bounded|]).
    apply Forall_cons; split; [|constructor].
    unfold or_empty. destruct (falsy _) eqn:E.
    + split; [simpl; lia|]. unfold empty_sentinel.
      repeat (constructor; [lia|]). constructor.
    + apply (field_bounded sd 112 127).
  - unfold or_empty. destruct (falsy _) eqn:E; [done|].
    by apply falsy_false.
Qed.

Lemma slice_insert_outside {A} (l : list A) (k i j : nat) (x : A) :
  k < i \/ j <= k -> slice (<[k:=x]> l) i j = slice l i j.
Proof.
  intros Hk. apply list_eq. intros n. rewrite !slice_lookup.
  case_decide; [|done]. apply list_lookup_insert_ne. lia.
Qed.

(** X4.  The bytes between the fields are not read: changing the byte at
    offset 15, 31, 63, 78, 79, 111 or 127 of the record, or a byte from
    offset 128 on, leaves every decoded field as it was. *)
Theorem parse_ignores_reserved_bytes (sd : bytes) (k : nat) (b : byte) :
  k ∈ [15; 31; 63; 78; 79; 111; 127] \/ 128 <= k ->
  parse_fields (<[k:=b]> sd) = parse_fields sd.
Proof.
  intros Hk. unfold parse_fields, field.
  assert (forall i j, In (i, j) [(0, 15); (16, 31); (32, 63); (64, 78);
                                 (80, 111); (112, 127)] -> k < i \/ j <= k)
    as Hout.
  { intros i j Hin. destruct Hk as [Hk|Hk].
    - rewrite !elem_of_cons, elem_of_nil in Hk. simpl in Hin.
      repeat destruct Hin as [[= <- <-]|Hin]; try done; lia.
    - simpl in Hin.
      repeat destruct Hin as [[= <- <-]|Hin]; try done; lia. }
  rewrite !slice_insert_outside by (apply Hout; simpl; tauto). done.
Qed.

Lemma parse_ignores_reserved_bytes_witness :
  let sd := signer_pattern ++ replicate 117 x00 in
  parse_fields (<[79:="A"%byte]> sd) = parse_fields sd.
Proof.
  intros sd. apply (parse_ignores_reserved_bytes sd 79). left.
  rewrite !elem_of_cons. tauto.
Defined.

(** ** The matches of one pass *)

Lemma scan_sound (pat : bytes) (s : bytes) :
  forall (k i p : nat),
    p ∈ scan k pat s i -> p ∈ occurrences_from pat s i /\ i + k <= p.
Proof.
  induction s as [|b s IH]; intros k i p Hp; cbn [scan] in Hp.
  { by apply elem_of_nil in Hp. }
  cbn [occurrences_from]. destruct k as [|k].
  - destruct (startswith (b :: s) pat).
    + apply elem_of_cons in Hp as [->|Hp].
      * split; [left|lia].
      * apply IH in Hp as [Hp Hle]. split; [by right|lia].
    + apply IH in Hp as [Hp Hle]. split; [done|lia].
  - apply IH in Hp as [Hp Hle]. split; [|lia].
    destruct (startswith (b :: s) pat); [by right|done].
Qed.

Lemma scan_apart (pat : bytes) (s : bytes) :
  pat <> [] ->
  forall (k i : nat),
    StronglySorted (fun p q => p + length pat <= q) (scan k pat s i).
Proof.
  intros Hpat. assert (0 < length pat) by (destruct pat; [done|simpl; lia]).
  induction s as [|b s IH]; intros k i; cbn [scan]; [constructor|].
  destruct k as [|k]; [|apply IH].
  destruct (startswith (b :: s) pat); [|apply IH].
  constructor; [apply IH|]. apply Forall_forall. intros q Hq.
  apply scan_sound in Hq as [_ Hq]. lia.
Qed.

Lemma scan_maximal (pat : bytes) (s : bytes) :
  pat <> [] ->
  forall (k i q : nat),
    q ∈ occurrences_from pat s i ->
    q < i + k \/ exists p, p ∈ scan k pat s i /\ p <= q < p + length pat.
Proof.
  intros Hpat. assert (0 < length pat) by (destruct pat; [done|simpl; lia]).
  induction s as [|b s IH]; intros k i q Hq; cbn [occurrences_from] in Hq.
  { by apply elem_of_nil in Hq. }
  cbn [scan].
  assert (q ∈ occurrences_from pat s (S i) -> S i <= q) as Hge.
  { intros Hin. apply occurrences_from_elem_of in Hin. lia. }
  destruct k as [|k].
  - destruct (startswith (b :: s) pat).
    + right. apply elem_of_cons in Hq as [->|Hq].
      * exists i. split; [left|lia].
      * pose proof (Hge Hq).
        destruct (IH (length pat - 1) (S i) q Hq) as [Hlt|(p & Hp & Hcov)].
        -- exists i. split; [left|lia].
        -- exists p. split; [by right|done].
    + pose proof (Hge Hq).
      destruct (IH 0 (S i) q Hq) as [Hlt|(p & Hp & Hcov)]; [lia|].
      right. by exists p.
  - assert (q = i \/ q ∈ occurrences_from pat s (S i)) as [->|Hq'].
    { destruct (startswith (b :: s) pat); [|by right].
      apply elem_of_cons in Hq as [->|Hq]; [by left|by right]. }
    + left. lia.
    + destruct (IH k (S i) q Hq') as [Hlt|(p & Hp & Hcov)]; [left; lia|].
      right. by exists p.
Qed.

Lemma matches_sound (data pat : bytes) (p : nat) :
  pat <> [] -> p ∈ matches data pat -> occurs_at pat data p = true.
Proof.
  intros Hpat Hp. apply scan_sound in Hp as [Hp _].
  by apply occurrences_elem_of.
Qed.

Lemma matches_bound (data pat : bytes) (p : nat) :
  p ∈ matches data pat -> p + length pat <= length data.
Proof.
  intros Hp. apply scan_sound in Hp as [Hp _].
  apply occurrences_from_elem_of in Hp as [Hp Hs].
  apply startswith_length in Hs. rewrite length_drop in Hs. lia.
Qed.

Lemma matches_maximal (data pat : bytes) (q : nat) :
  pat <> [] ->
  occurs_at pat data q = true ->
  exists p, p ∈ matches data pat /\ p <= q < p + length pat.
Proof.
  intros Hpat Hq. apply occurrences_elem_of in Hq; [|done].
  destruct (scan_maximal pat data Hpat 0 0 q Hq) as [Hlt|Hex]; [lia|done].
Qed.

Lemma matches_nil (data pat : bytes) :
  pat <> [] ->
  matches data pat = [] <-> forall p, occurs_at pat data p = false.
Proof.
  intros Hpat. split.
  - intros Hnil p. destruct (occurs_at pat data p) eqn:E; [|done].
    destruct (matches_maximal data pat p Hpat E) as (m & Hm & _).
    rewrite Hnil in Hm. by apply elem_of_nil in Hm.
  - intros Hno. destruct (matches data pat) as [|m ms] eqn:E; [done|].
    assert (m ∈ matches data pat) as Hm by (rewrite E; left).
    apply matches_sound in Hm; [|done]. by rewrite Hno in Hm.
Qed.

(** X5.  One pass of [replace_all_occurrences] over [data] terminates.  The
    positions it writes are occurrences of [old_bytes] in [data], from left
    to right and at least [len(old_bytes)] apart, and every occurrence of
    [old_bytes] in [data] starts inside one of them: the pass takes the
    leftmost occurrences that do not overlap.  Its count is their number. *)
Theorem replace_loop_leftmost (fuel : nat) (data old_bytes new_bytes
    new_data : bytes) :
  old_bytes <> [] ->
  length old_bytes = length new_bytes ->
  length data < fuel ->
  exists ms,
    UpdateSigner.replace_loop fuel data old_bytes new_bytes new_data 0 0
    = Return (overwrite new_bytes ms new_data, length ms)
    /\ (forall p, p ∈ ms -> occurs_at old_bytes data p = true)
    /\ StronglySorted (fun p q => p + length old_bytes <= q) ms
    /\ (forall q, occurs_at old_bytes data q = true ->
                  exists p, p ∈ ms /\ p <= q < p + length old_bytes).
Proof.
  intros Hne Hlen Hfuel. exists (matches data old_bytes). split_and!.
  - rewrite replace_loop_scan by (done || lia). by rewrite drop_0.
  - intros p. by apply matches_sound.
  - by apply scan_apart.
  - intros q. by apply matches_maximal.
Qed.

Lemma replace_loop_leftmost_witness :
  let data := ["a"; "a"; "a"; "b"; "a"; "a"]%byte in
  exists ms,
    UpdateSigner.replace_loop 7 data ["a"; "a"]%byte ["c"; "d"]%byte data 0 0
    = Return (overwrite ["c"; "d"]%byte ms data, length ms)
    /\ (forall p, p ∈ ms -> occurs_at ["a"; "a"]%byte data p = true)
    /\ StronglySorted (fun p q => p + 2 <= q) ms
    /\ (forall q, occurs_at ["a"; "a"]%byte data q = true ->
                  exists p, p ∈ ms /\ p <= q < p + 2).
Proof.
  intros data.
  apply (replace_loop_leftmost 7 data ["a"; "a"]%byte ["c"; "d"]%byte data);
    [done | reflexivity | simpl; lia].
Defined.

(** ** All the passes of [replace_all_occurrences] *)

Lemma overwrite_matches_length (data ob nb nd : bytes) :
  length ob = length nb ->
  length nd = length data ->
  length (overwrite nb (matches data ob) nd) = length data.
Proof.
  intros Hlen Hnd. rewrite overwrite_length; [done|].
  intros p Hp. apply matches_bound in Hp. lia.
Qed.

Lemma pass_length (data : bytes) (st : bytes * nat) (rep : bytes * bytes) :
  length (fst st) = length data ->
  length (fst (pass data st rep)) = length data.
Proof.
  intros Hst. unfold pass. destruct (length (fst rep) =? length (snd rep)) eqn:E;
    [|done].
  apply Nat.eqb_eq in E. cbn [fst]. by apply overwrite_matches_length.
Qed.

Lemma foldl_pass_length (data : bytes) (reps : list (bytes * bytes)) :
  forall st, length (fst st) = length data ->
             length (fst (foldl (pass data) st reps)) = length data.
Proof.
  induction reps as [|rep reps IH]; intros st Hst; [done|].
  cbn [foldl]. apply IH. by apply pass_length.
Qed.

Lemma replace_all_outcome (fuel : nat) (data : bytes)
    (old_model new_model : str) :
  length data < fuel ->
  match UpdateSigner.replace_all_occurrences fuel data old_model new_model with
  | Return (out, _) => length out = length data
  | Raise _ =>
      falsy old_model || falsy new_model || str_eqb old_model new_model = false
      /\ Exists (fun c => (128 <= c)%N) (old_model ++ new_model)
  | OutOfFuel => False
  end.
Proof.
  intros Hfuel. unfold UpdateSigner.replace_all_occurrences.
  destruct (falsy old_model || falsy new_model || str_eqb old_model new_model)
    eqn:Eguard; [done|].
  pose proof Eguard as Eg.
  apply orb_false_iff in Eguard as [[Ho Hn]%orb_false_iff He].
  apply falsy_false in Ho, Hn. apply str_eqb_neq in He.
  destruct (ascii_or_not (old_model ++ new_model)) as [Hall|Hex].
  - apply Forall_app in Hall as [Hao Han].
    pose proof (replace_all_ascii_fold fuel data old_model new_model
                  Ho Hn He Hao Han Hfuel) as Hfold.
    unfold UpdateSigner.replace_all_occurrences in Hfold.
    rewrite Eg in Hfold. rewrite Hfold.
    destruct (foldl (pass data) (data, 0)
                (encodings (ascii_bytes old_model) (ascii_bytes new_model)))
      as [out n] eqn:E.
    change out with (fst (out, n)). rewrite <- E.
    by apply foldl_pass_length.
  - by rewrite replacements_Raise.
Qed.

(** X6.  [replace_all_occurrences] ends for every buffer and every pair of
    tokens: either it returns a buffer of the length of the input, or it
    raises [UnicodeEncodeError], and then a token holds a character outside
    ASCII. *)
Theorem replace_all_returns_same_size (fuel : nat) (data : bytes)
    (old_model new_model : str) :
  length data < fuel ->
  (exists out n,
      UpdateSigner.replace_all_occurrences fuel data old_model new_model
      = Return (out, n)
      /\ length out = length data)
  \/ (UpdateSigner.replace_all_occurrences fuel data old_model new_model
      = Raise UnicodeEncodeError
      /\ Exists (fun c => (128 <= c)%N) (old_model ++ new_model)).
Proof.
  intros Hfuel.
  pose proof (replace_all_outcome fuel data old_model new_model Hfuel) as H.
  destruct (UpdateSigner.replace_all_occurrences fuel data old_model new_model)
    as [[out n]|[]|]; [|right; split; [done|apply H]|done].
  left. by exists out, n.
Qed.

Lemma replace_all_returns_same_size_witness :
  let data := ["A"; "B"; "A"]%byte in
  (exists out n,
      UpdateSigner.replace_all_occurrences 4 data [65%N] [66%N]
      = Return (out, n)
      /\ length out = length data)
  \/ (UpdateSigner.replace_all_occurrences 4 data [65%N] [66%N]
      = Raise UnicodeEncodeError
      /\ Exists (fun c => (128 <= c)%N) ([65%N] ++ [66%N])).
Proof.
  intros data. apply (replace_all_returns_same_size 4 data [65%N] [66%N]).
  simpl. lia.
Defined.

(** X7.  ASCII tokens of different lengths replace nothing:
    [replace_all_occurrences] returns the input buffer and the count 0, as
    every one of the five passes is skipped. *)
Theorem replace_all_length_mismatch (fuel : nat) (data : bytes)
    (old_model new_model : str) :
  Forall (fun c => (c < 128)%N) old_model ->
  Forall (fun c => (c < 128)%N) new_model ->
  length old_model <> length new_model ->
  UpdateSigner.replace_all_occurrences fuel data old_model new_model
  = Return (data, 0).
Proof.
  intros Hao Han Hlen. unfold UpdateSigner.replace_all_occurrences.
  destruct (falsy old_model || falsy new_model || str_eqb old_model new_model);
    [done|].
  rewrite replacements_ascii by done. cbn [bind].
  unfold encodings. cbn [UpdateSigner.replace_passes].
  rewrite !length_app, !utf16le_bytes_length. unfold ascii_bytes.
  rewrite !length_map. cbn [length].
  assert ((length old_model =? length new_model) = false) as ->
    by (apply Nat.eqb_neq; lia).
  assert ((2 * length old_model =? 2 * length new_model) = false) as ->
    by (apply Nat.eqb_neq; lia).
  assert ((length old_model + 1 =? length new_model + 1) = false) as ->
    by (apply Nat.eqb_neq; lia).
  done.
Qed.

Lemma replace_all_length_mismatch_witness :
  UpdateSigner.replace_all_occurrences 0 ["A"; "B"; "A"]%byte [65%N] [66%N; 67%N]
  = Return (["A"; "B"; "A"]%byte, 0).
Proof.
  apply (replace_all_length_mismatch 0 ["A"; "B"; "A"]%byte [65%N] [66%N; 67%N]).
  - repeat constructor.
  - repeat constructor.
  - simpl. lia.
Defined.

Lemma foldl_pass_encodings (data old_a new_a : bytes) :
  length old_a = length new_a ->
  foldl (pass data) (data, 0) (encodings old_a new_a)
  = (overwrite (new_a ++ [x00]) (matches data (old_a ++ [x00]))
       (overwrite (new_a ++ [x00]) (matches data (old_a ++ [x00]))
          (overwrite (utf16le_bytes new_a) (matches data (utf16le_bytes old_a))
             (overwrite new_a (matches data old_a)
                (overwrite new_a (matches data old_a) data)))),
     0 + length (matches data old_a) + length (matches data old_a)
     + length (matches data (utf16le_bytes old_a))
     + length (matches data (old_a ++ [x00]))
     + length (matches data (old_a ++ [x00]))).
Proof.
  intros Hlen. unfold encodings. cbn [foldl].
  rewrite !pass_same_length;
    rewrite ?length_app, ?utf16le_bytes_length; (done || lia).
Qed.

(** X8.  For distinct non-empty ASCII tokens of one length, the count
    returned is 0 exactly when the old token is nowhere in the buffer, in
    ASCII or in UTF-16LE; and with the count 0 the buffer returned is the
    input. *)
Theorem replace_all_nothing_found (fuel : nat) (data : bytes)
    (old_model new_model : str) :
  old_model <> [] -> new_model <> [] -> old_model <> new_model ->
  Forall (fun c => (c < 128)%N) old_model ->
  Forall (fun c => (c < 128)%N) new_model ->
  length old_model = length new_model ->
  length data < fuel ->
  exists out n,
    UpdateSigner.replace_all_occurrences fuel data old_model new_model
    = Return (out, n)
    /\ (n = 0 <->
        forall p,
          occurs_at (ascii_bytes old_model) data p = false
          /\ occurs_at (utf16le_bytes (ascii_bytes old_model)) data p = false)
    /\ (n = 0 -> out = data).
Proof.
  intros Ho Hn Hne Hao Han Hlen Hfuel.
  rewrite replace_all_ascii_fold by done.
  assert (length (ascii_bytes old_model) = length (ascii_bytes new_model))
    as Hla by (unfold ascii_bytes; by rewrite !length_map).
  rewrite foldl_pass_encodings by done.
  pose proof (ascii_bytes_nonempty old_model Ho) as Hoa.
  set (oa := ascii_bytes old_model) in *.
  set (na := ascii_bytes new_model) in *.
  assert (utf16le_bytes oa <> []) as How.
  { intros E. apply (f_equal length) in E.
    rewrite utf16le_bytes_length in E. destruct oa; [done|simpl in E; lia]. }
  assert (oa ++ [x00] <> []) as Hoz by (by destruct oa).
  assert (matches data oa = [] -> matches data (oa ++ [x00]) = []) as Hz.
  { intros Ha. apply matches_nil; [done|]. intros p.
    destruct (occurs_at (oa ++ [x00]) data p) eqn:E; [|done].
    apply occurs_app_nul in E as [E _].
    rewrite (proj1 (matches_nil data oa Hoa) Ha p) in E. done. }
  eexists _, _. split; [reflexivity|]. split.
  - split.
    + intros Hsum.
      assert (matches data oa = []) as Ha
        by (apply length_zero_iff_nil; lia).
      assert (matches data (utf16le_bytes oa) = []) as Hw
        by (apply length_zero_iff_nil; lia).
      intros p. split; by apply matches_nil.
    + intros Hno.
      assert (matches data oa = []) as Ha
        by (apply matches_nil; [done|]; intros p; apply Hno).
      assert (matches data (utf16le_bytes oa) = []) as Hw
        by (apply matches_nil; [done|]; intros p; apply Hno).
      rewrite (Hz Ha), Ha, Hw. reflexivity.
  - intros Hsum.
    assert (matches data oa = []) as Ha
      by (apply length_zero_iff_nil; lia).
    assert (matches data (utf16le_bytes oa) = []) as Hw
      by (apply length_zero_iff_nil; lia).
    rewrite (Hz Ha), Ha, Hw. reflexivity.
Qed.

Lemma replace_all_nothing_found_witness :
  let data := ["A"; "B"; "A"]%byte in
  exists out n,
    UpdateSigner.replace_all_occurrences 4 data [67%N] [68%N] = Return (out, n)
    /\ (n = 0 <->
        forall p,
          occurs_at (ascii_bytes [67%N]) data p = false
          /\ occurs_at (utf16le_bytes (ascii_bytes [67%N])) data p = false)
    /\ (n = 0 -> out = data).
Proof.
  intros data.
  apply (replace_all_nothing_found 4 data [67%N] [68%N]);
    try done; try (repeat constructor); simpl; lia.
Defined.

(** The byte at [i] is inside an occurrence of the old token in [data], in
    ASCII or in UTF-16LE. *)
Lemma pass_frame (data ob nb : bytes) (Covered : nat -> Prop) (i : nat) :
  (forall p, occurs_at ob data p = true -> covers p (length ob) i ->
             length ob = length nb ->
             Covered i \/ nb !! (i - p) = data !! i) ->
  ob <> [] ->
  forall st,
    length (fst st) = length data ->
    (fst st !! i = data !! i \/ Covered i) ->
    fst (pass data st (ob, nb)) !! i = data !! i \/ Covered i.
Proof.
  intros Hrep Hob st Hst Hinv. unfold pass. cbn [fst snd].
  destruct (length ob =? length nb) eqn:E; [|done].
  apply Nat.eqb_eq in E. cbn [fst].
  destruct (overwrite_cases nb (matches data ob) (fst st) i)
    as [(p & Hp & Hcov & Hval)|[_ Hsame]].
  - intros p Hp. apply matches_bound in Hp. lia.
  - rewrite Hval. rewrite <- E in Hcov.
    destruct (Hrep p (matches_sound _ _ _ Hob Hp) Hcov E) as [?|?];
      [by right|by left].
  - by rewrite Hsame.
Qed.

(** X9.  [replace_all_occurrences] with ASCII tokens changes a byte only
    inside an occurrence of the old token in the input, in ASCII or in
    UTF-16LE: every other byte of the result is the byte of the input. *)
Theorem replace_all_changes_inside_occurrences (fuel : nat) (data : bytes)
    (old_model new_model : str) :
  Forall (fun c => (c < 128)%N) old_model ->
  Forall (fun c => (c < 128)%N) new_model ->
  length data < fuel ->
  exists out n,
    UpdateSigner.replace_all_occurrences fuel data old_model new_model
    = Return (out, n)
    /\ forall i,
         out !! i <> data !! i ->
         (exists p, occurs_at (ascii_bytes old_model) data p = true
                    /\ covers p (length old_model) i)
         \/ (exists q,
               occurs_at (utf16le_bytes (ascii_bytes old_model)) data q = true
               /\ covers q (2 * length old_model) i).
Proof.
  intros Hao Han Hfuel.
  destruct (falsy old_model || falsy new_model || str_eqb old_model new_model)
    eqn:Eguard.
  { exists data, 0. unfold UpdateSigner.replace_all_occurrences.
    rewrite Eguard. split; [done|]. by intros i Hi. }
  apply orb_false_iff in Eguard as [[Ho Hn]%orb_false_iff He].
  apply falsy_false in Ho, Hn. apply str_eqb_neq in He.
  rewrite replace_all_ascii_fold by done.
  pose proof (ascii_bytes_nonempty old_model Ho) as Hoa.
  assert (length (ascii_bytes old_model) = length old_model) as Hlo
    by (unfold ascii_bytes; by rewrite length_map).
  set (oa := ascii_bytes old_model) in *.
  set (na := ascii_bytes new_model) in *.
  assert (utf16le_bytes oa <> []) as How.
  { intros E. apply (f_equal length) in E.
    rewrite utf16le_bytes_length in E. destruct oa; [done|simpl in E; lia]. }
  assert (oa ++ [x00] <> []) as Hoz by (by destruct oa).
  destruct (foldl (pass data) (data, 0) (encodings oa na)) as [out n] eqn:E.
  exists out, n. split; [done|]. intros i Hi.
  set (Covered := fun i : nat =>
    (exists p, occurs_at oa data p = true /\ covers p (length old_model) i)
    \/ (exists q, occurs_at (utf16le_bytes oa) data q = true
                  /\ covers q (2 * length old_model) i)).
  assert (forall p, occurs_at oa data p = true -> covers p (length oa) i ->
                    length oa = length na ->
                    Covered i \/ na !! (i - p) = data !! i) as Ha.
  { intros p Hp Hcov _. left. left. exists p. by rewrite <- Hlo. }
  assert (forall p, occurs_at (utf16le_bytes oa) data p = true ->
                    covers p (length (utf16le_bytes oa)) i ->
                    length (utf16le_bytes oa) = length (utf16le_bytes na) ->
                    Covered i \/ utf16le_bytes na !! (i - p) = data !! i) as Hw.
  { intros p Hp Hcov _. left. right. exists p.
    by rewrite <- Hlo, <- utf16le_bytes_length. }
  assert (forall p, occurs_at (oa ++ [x00]) data p = true ->
                    covers p (length (oa ++ [x00])) i ->
                    length (oa ++ [x00]) = length (na ++ [x00]) ->
                    Covered i \/ (na ++ [x00]) !! (i - p) = data !! i) as Hz.
  { intros p Hp Hcov Hl. rewrite !length_app in Hl. cbn [length] in Hl.
    apply occurs_app_nul in Hp as [Hp Hnul].
    unfold covers in Hcov. rewrite length_app in Hcov. cbn [length] in Hcov.
    destruct (decide (i < p + length oa)) as [Hlt|Hge].
    - left. left. exists p. split; [done|]. unfold covers. lia.
    - right. replace i with (p + length oa) by lia. rewrite Hnul.
      replace (p + length oa - p) with (length na) by lia.
      by rewrite list_lookup_middle. }
  assert (fst (foldl (pass data) (data, 0) (encodings oa na)) !! i = data !! i
          \/ Covered i) as [Heq|Hcov].
  { unfold encodings. cbn [foldl].
    apply pass_frame; [done|done| |].
    { repeat apply pass_length. done. }
    apply pass_frame; [done|done| |].
    { repeat apply pass_length. done. }
    apply pass_frame; [done|done| |].
    { repeat apply pass_length. done. }
    apply pass_frame; [done|done| |].
    { repeat apply pass_length. done. }
    apply pass_frame; [done|done|done|]. by left. }
  - rewrite E in Heq. done.
  - exact Hcov.
Qed.

Lemma replace_all_changes_inside_occurrences_witness :
  let data := ["A"; "B"; "A"]%byte in
  exists out n,
    UpdateSigner.replace_all_occurrences 4 data [65%N] [66%N] = Return (out, n)
    /\ forall i,
         out !! i <> data !! i ->
         (exists p, occurs_at (ascii_bytes [65%N]) data p = true
                    /\ covers p (length [65%N]) i)
         \/ (exists q,
               occurs_at (utf16le_bytes (ascii_bytes [65%N])) data q = true
               /\ covers q (2 * length [65%N]) i).
Proof.
  intros data.
  apply (replace_all_changes_inside_occurrences 4 data [65%N] [66%N]);
    try (repeat constructor); simpl; lia.
Defined.

(** ** update_single_file and main of update_signer.py *)

Lemma write_back_outcome (new_data : bytes)
    (modifications : list UpdateSigner.modification) :
  let r := UpdateSigner.write_back new_data modifications in
  (UpdateSigner.success r = true /\ UpdateSigner.written r = Some new_data
   /\ modifications <> [])
  \/ (r = UpdateSigner.failed /\ modifications = []).
Proof.
  unfold UpdateSigner.write_back. destruct modifications; [by right|].
  left. by cbn.
Qed.

Lemma model_step_outcome (fuel : nat) (new_data : bytes)
    (modifications : list UpdateSigner.modification)
    (new_device_model old_device_model : option str)
    (experimental_model_replace : bool) :
  length new_data < fuel ->
  exists r,
    UpdateSigner.model_step fuel new_data modifications new_device_model
      old_device_model experimental_model_replace = Return r
    /\ ((UpdateSigner.success r = true
         /\ exists w, UpdateSigner.written r = Some w
                      /\ length w = length new_data)
        \/ r = UpdateSigner.failed).
Proof.
  intros Hfuel. unfold UpdateSigner.model_step.
  destruct (_ && _ && _ && _).
  - pose proof (replace_all_outcome fuel new_data
                  (UpdateSigner.the_str old_device_model)
                  (UpdateSigner.the_str new_device_model) Hfuel) as H.
    destruct (UpdateSigner.replace_all_occurrences _ _ _ _)
      as [[out n]|e|]; [| |done].
    + eexists. split; [reflexivity|].
      destruct (write_back_outcome out
                  (if 0 <? n
                   then modifications ++ [UpdateSigner.ModelTimes n]
                   else modifications)) as [(Hs & Hw & _)|[Hr _]].
      * left. split; [done|]. by exists out.
      * by right.
    + eexists. split; [reflexivity|]. by right.
  - eexists. split; [reflexivity|].
    destruct (write_back_outcome new_data modifications)
      as [(Hs & Hw & _)|[Hr _]].
    + left. split; [done|]. by exists new_data.
    + by right.
Qed.

Lemma update_single_file_outcome (fuel : nat) (file : option bytes)
    (new_signer_data : option bytes)
    (new_device_model old_device_model preferred_model : option str)
    (experimental_model_replace : bool) :
  (forall data, file = Some data -> length data < fuel) ->
  exists r,
    UpdateSigner.update_single_file fuel file new_signer_data new_device_model
      old_device_model preferred_model experimental_model_replace = Return r
    /\ ((UpdateSigner.success r = true
         /\ exists data w, file = Some data /\ UpdateSigner.written r = Some w
                           /\ length w = length data)
        \/ r = UpdateSigner.failed).
Proof.
  intros Hfuel. destruct file as [data|]; cbn [UpdateSigner.update_single_file].
  2:{ eexists. split; [reflexivity|]. by right. }
  specialize (Hfuel data eq_refl).
  assert (forall nd mods, length nd = length data ->
            exists r,
              UpdateSigner.model_step fuel nd mods new_device_model
                old_device_model experimental_model_replace = Return r
              /\ ((UpdateSigner.success r = true
                   /\ exists data' w, Some data = Some data'
                        /\ UpdateSigner.written r = Some w
                        /\ length w = length data')
                  \/ r = UpdateSigner.failed)) as Hstep.
  { intros nd mods Hnd.
    destruct (model_step_outcome fuel nd mods new_device_model
                old_device_model experimental_model_replace)
      as (r & Hr & [(Hs & w & Hw & Hl)|Hf]); [lia| |].
    - exists r. split; [done|]. left. split; [done|].
      exists data, w. split_and!; [done|done|lia].
    - exists r. split; [done|]. by right. }
  destruct (UpdateSigner.find_signer_section (Some data))
    as [pos sd| | | |] eqn:Efind; try by apply Hstep.
  destruct (negb (falsy sd) && negb (falsy_opt new_signer_data));
    [|by apply Hstep].
  unfold UpdateSigner.patch.
  destruct (length (default [] new_signer_data) =? 128) eqn:E128;
    cbn [negb].
  2:{ eexists. split; [reflexivity|]. by right. }
  apply Nat.eqb_eq in E128. apply Hstep.
  apply find_signer_section_Located in Efind as (_ & Hle & _).
  rewrite <- E128. apply set_slice_length. lia.
Qed.

(** X10.  [update_single_file] always comes to an end and returns [True]
    exactly when it has written the file; what it writes has the length the
    file had.  A run that returns [False] leaves the file untouched.  (The
    write itself is taken to succeed, as in [update_result].) *)
Theorem update_single_file_keeps_size (fuel : nat) (file : option bytes)
    (new_signer_data : option bytes)
    (new_device_model old_device_model preferred_model : option str)
    (experimental_model_replace : bool) :
  (forall data, file = Some data -> length data < fuel) ->
  exists r,
    UpdateSigner.update_single_file fuel file new_signer_data new_device_model
      old_device_model preferred_model experimental_model_replace = Return r
    /\ (UpdateSigner.success r = true <-> is_Some (UpdateSigner.written r))
    /\ (forall w, UpdateSigner.written r = Some w ->
                  exists data, file = Some data /\ length w = length data).
Proof.
  intros Hfuel.
  destruct (update_single_file_outcome fuel file new_signer_data
              new_device_model old_device_model preferred_model
              experimental_model_replace Hfuel)
    as (r & Hr & [(Hs & data & w & Hf & Hw & Hl)| ->]).
  - exists r. split; [done|]. split.
    + rewrite Hs, Hw. split; [by eexists|done].
    + intros w' Hw'. rewrite Hw in Hw'. injection Hw' as <-. by exists data.
  - eexists. split; [done|]. cbn. split.
    + split; [done|]. by intros [? ?].
    + done.
Qed.

Lemma update_single_file_keeps_size_witness :
  let file := Some (["x"]%byte ++ signer_pattern ++ replicate 120 x00) in
  exists r,
    UpdateSigner.update_single_file 133 file
      (Some (signer_pattern ++ replicate 117 "1"%byte))
      (Some [66%N]) (Some [120%N]) None true = Return r
    /\ (UpdateSigner.success r = true <-> is_Some (UpdateSigner.written r))
    /\ (forall w, UpdateSigner.written r = Some w ->
                  exists data, file = Some data /\ length w = length data).
Proof.
  intros file. apply (update_single_file_keeps_size 133 file).
  intros data [= <-]. simpl. lia.
Defined.

(** X11.  With [experimental_model_replace] set, a model token that holds a
    character outside ASCII makes the whole of [update_single_file] fail: it
    returns [False] and writes nothing, also when a record of the right size
    was given and the file has a record to replace. *)
Theorem update_single_file_encode_error (fuel : nat) (file : option bytes)
    (new_signer_data : option bytes) (new_model old_model : str)
    (preferred_model : option str) :
  old_model <> [] -> new_model <> [] -> old_model <> new_model ->
  Exists (fun c => (128 <= c)%N) (old_model ++ new_model) ->
  UpdateSigner.update_single_file fuel file new_signer_data (Some new_model)
    (Some old_model) preferred_model true
  = Return UpdateSigner.failed.
Proof.
  intros Ho Hn Hne Hex.
  assert (forall nd mods,
            UpdateSigner.model_step fuel nd mods (Some new_model)
              (Some old_model) true = Return UpdateSigner.failed) as Hstep.
  { intros nd mods. unfold UpdateSigner.model_step.
    cbn [UpdateSigner.the_str falsy_opt andb].
    apply falsy_false in Ho, Hn. rewrite Ho, Hn.
    apply str_eqb_neq in Hne. rewrite Hne. cbn [negb andb].
    unfold UpdateSigner.replace_all_occurrences.
    rewrite Ho, Hn, Hne. cbn [orb].
    by rewrite replacements_Raise. }
  destruct file as [data|]; cbn [UpdateSigner.update_single_file]; [|done].
  destruct (UpdateSigner.find_signer_section (Some data)); try apply Hstep.
  destruct (_ && _); [|apply Hstep].
  destruct (UpdateSigner.patch _ _ _); [apply Hstep|done].
Qed.

Lemma update_single_file_encode_error_witness :
  UpdateSigner.update_single_file 200
    (Some (signer_pattern ++ replicate 117 x00))
    (Some (signer_pattern ++ replicate 117 "1"%byte))
    (Some [233%N]) (Some [101%N]) None true
  = Return UpdateSigner.failed.
Proof.
  apply (update_single_file_encode_error 200
           (Some (signer_pattern ++ replicate 117 x00))
           (Some (signer_pattern ++ replicate 117 "1"%byte))
           [233%N] [101%N] None); try done.
  apply Exists_app. right. constructor. lia.
Defined.


(** X13.  [main] run without [--signer-section] and without
    [--experimental-model-replace] ends with status 1 and leaves the image as
    it was, whatever models are given or detected. *)
Theorem main_model_needs_flag (fuel : nat) (file : option bytes)
    (a : UpdateSigner.args) :
  UpdateSigner.signer_section a = None ->
  UpdateSigner.experimental a = false ->
  UpdateSigner.main fuel file a = Return (1, None).
Proof.
  intros Hsig Hexp. unfold UpdateSigner.main. rewrite Hsig, Hexp.
  destruct (_ && _); [done|].
  destruct file as [data|]; cbn [UpdateSigner.update_single_file bind];
    [|done].
  unfold UpdateSigner.model_step. cbn [andb].
  destruct (UpdateSigner.find_signer_section (Some data)); try done.
  by rewrite andb_false_r.
Qed.

Lemma main_model_needs_flag_witness :
  UpdateSigner.main 5 (Some ["A"; "B"]%byte)
    {| UpdateSigner.signer_section := None;
       UpdateSigner.new_model := Some [67%N];
       UpdateSigner.old_model := Some [65%N];
       UpdateSigner.preferred := None;
       UpdateSigner.auto_detect_old_model := false;
       UpdateSigner.experimental := false |}
  = Return (1, None).
Proof. by apply (main_model_needs_flag 5 (Some ["A"; "B"]%byte)). Defined.

(** X14.  [main] ends with status 0 or 1.  With status 0 the image has been
    written, with content of the length it had; with status 1 nothing has
    been written. *)
Theorem main_exit_status (fuel : nat) (file : option bytes)
    (a : UpdateSigner.args) :
  (forall data, file = Some data -> length data < fuel) ->
  exists code w,
    UpdateSigner.main fuel file a = Return (code, w)
    /\ ((code = 0
         /\ exists data out, file = Some data /\ w = Some out
                             /\ length out = length data)
        \/ (code = 1 /\ w = None)).
Proof.
  intros Hfuel. unfold UpdateSigner.main.
  destruct (_ && _); [exists 1, None; split; [done|by right]|].
  assert (forall sig old,
    exists code w,
      bind (UpdateSigner.update_single_file fuel file sig
              (UpdateSigner.new_model a) old (UpdateSigner.preferred a)
              (UpdateSigner.experimental a))
        (fun r => Return (if UpdateSigner.success r then 0 else 1,
                          UpdateSigner.written r))
      = Return (code, w)
      /\ ((code = 0
           /\ exists data out, file = Some data /\ w = Some out
                               /\ length out = length data)
          \/ (code = 1 /\ w = None))) as Hrun.
  { intros sig old.
    destruct (update_single_file_outcome fuel file sig
                (UpdateSigner.new_model a) old (UpdateSigner.preferred a)
                (UpdateSigner.experimental a) Hfuel)
      as (r & Hr & [(Hs & data & w & Hf & Hw & Hl)| ->]); rewrite Hr;
      cbn [bind].
    - rewrite Hs, Hw. exists 0, (Some w). split; [done|]. left.
      split; [done|]. by exists data, w.
    - exists 1, None. split; [done|]. by right. }
  destruct (UpdateSigner.signer_section a) as [[rec|]|].
  - destruct (negb (length rec =? 128)); [|apply Hrun].
    exists 1, None. split; [done|by right].
  - exists 1, None. split; [done|by right].
  - apply Hrun.
Qed.

Lemma main_exit_status_witness :
  let file := Some (signer_pattern ++ replicate 117 x00) in
  let a := {| UpdateSigner.signer_section :=
                Some (Some (signer_pattern ++ replicate 117 "1"%byte));
              UpdateSigner.new_model := None;
              UpdateSigner.old_model := None;
              UpdateSigner.preferred := None;
              UpdateSigner.auto_detect_old_model := false;
              UpdateSigner.experimental := false |} in
  exists code w,
    UpdateSigner.main 129 file a = Return (code, w)
    /\ ((code = 0
         /\ exists data out, file = Some data /\ w = Some out
                             /\ length out = length data)
        \/ (code = 1 /\ w = None)).
Proof.
  intros file a. apply (main_exit_status 129 file a).
  intros data [= <-]. simpl. lia.
Defined.

(** ** Writing a record and reading it back *)

Lemma find_after_patch (data : bytes) (pos : nat) (sd new_record : bytes) :
  UpdateSigner.find_signer_section (Some data) = Located pos sd ->
  length new_record = 128 ->
  signer_pattern `prefix_of` new_record ->
  UpdateSigner.find_signer_section
    (Some (set_slice data pos (pos + 128) new_record))
  = Located pos new_record.
Proof.
  intros ([Hocc Hfirst] & Hle & _)%find_signer_section_Located Hlen [r Hr].
  rewrite <- Hlen.
  assert (pos + length new_record <= length data) as Hfit by lia.
  apply find_signer_section_Located.
  assert (occurs_at signer_pattern
            (set_slice data pos (pos + length new_record) new_record) pos
          = true) as Hnew.
  { apply occurs_at_lookup. intros k Hk. rewrite set_slice_lookup by done.
    change (length signer_pattern) with 11 in Hk.
    rewrite decide_True by lia. replace (pos + k - pos) with k by lia.
    rewrite Hr. by apply lookup_app_l. }
  split_and!.
  - split; [done|]. intros q Hq.
    destruct (occurs_at signer_pattern
                (set_slice data pos (pos + length new_record) new_record) q)
      eqn:Eq; [|done].
    pose proof (unbordered_apart signer_pattern _ q pos eq_refl Eq Hnew Hq)
      as Hapart.
    change (length signer_pattern) with 11 in Hapart.
    rewrite <- (Hfirst q Hq). symmetry. apply occurs_at_lookup.
    intros k Hk. change (length signer_pattern) with 11 in Hk.
    apply occurs_at_lookup with (k := k) in Eq; [|done].
    rewrite set_slice_lookup in Eq by done.
    rewrite decide_False in Eq by lia. done.
  - rewrite set_slice_length by done. lia.
  - rewrite <- Hlen. by rewrite set_slice_slice.
Qed.

(** X15.  What the update tool writes, the extraction tool reads back:
    after [update_single_file] has put a 128-byte record that begins with
    ["SignerVer02"] in a file, [extract_parameters] on the written file
    succeeds, saves that record byte for byte and reports its fields. *)
Theorem update_then_extract (fuel : nat) (data : bytes) (pos : nat)
    (sd new_record : bytes) (preferred_model : option str) :
  UpdateSigner.find_signer_section (Some data) = Located pos sd ->
  length new_record = 128 ->
  signer_pattern `prefix_of` new_record ->
  exists out,
    UpdateSigner.update_single_file fuel (Some data) (Some new_record)
      None None preferred_model false
    = Return {| UpdateSigner.success := true;
                UpdateSigner.written := Some out |}
    /\ ExtractParams.extract_parameters (Some out) (Some true) (Some true)
       = {| ExtractParams.extracted := true;
            ExtractParams.json_written := Some (parse_fields new_record);
            ExtractParams.signer_written := Some new_record |}.
Proof.
  intros Hfind Hlen Hpre. eexists. split.
  - by apply (update_single_file_writes_patch fuel data pos sd).
  - unfold ExtractParams.extract_parameters.
    rewrite find_signer_section_same, (find_after_patch _ _ _ _ Hfind Hlen Hpre).
    assert (falsy new_record = false) as ->
      by (apply falsy_false; intros ->; done).
    by rewrite extract_parse_unfold, Hlen.
Qed.

Lemma update_then_extract_witness :
  let data := ["x"]%byte ++ signer_pattern ++ replicate 120 x00 in
  let new_record := signer_pattern ++ replicate 117 "1"%byte in
  exists out,
    UpdateSigner.update_single_file 0 (Some data) (Some new_record)
      None None None false
    = Return {| UpdateSigner.success := true;
                UpdateSigner.written := Some out |}
    /\ ExtractParams.extract_parameters (Some out) (Some true) (Some true)
       = {| ExtractParams.extracted := true;
            ExtractParams.json_written := Some (parse_fields new_record);
            ExtractParams.signer_written := Some new_record |}.
Proof.
  intros data new_record.
  apply (update_then_extract 0 data 1
           (slice data 1 129) new_record None).
  - reflexivity.
  - reflexivity.
  - by eexists.
Defined.

(** X16.  Replacing the record is idempotent on files: a second run of
    [update_single_file] with the same record, one that begins with
    ["SignerVer02"], on the file the first run wrote finds the record at the
    same place and writes the same bytes. *)
Theorem update_single_file_idempotent (fuel : nat) (data : bytes) (pos : nat)
    (sd new_record out : bytes) (preferred_model : option str) :
  UpdateSigner.find_signer_section (Some data) = Located pos sd ->
  length new_record = 128 ->
  signer_pattern `prefix_of` new_record ->
  UpdateSigner.update_single_file fuel (Some data) (Some new_record)
    None None preferred_model false
  = Return {| UpdateSigner.success := true; UpdateSigner.written := Some out |}
  ->
  UpdateSigner.update_single_file fuel (Some out) (Some new_record)
    None None preferred_model false
  = Return {| UpdateSigner.success := true; UpdateSigner.written := Some out |}.
Proof.
  intros Hfind Hlen Hpre Hrun.
  rewrite (update_single_file_writes_patch _ _ _ _ _ _ Hfind Hlen) in Hrun.
  injection Hrun as <-.
  pose proof (find_after_patch _ _ _ _ Hfind Hlen Hpre) as Hfind'.
  rewrite (update_single_file_writes_patch _ _ _ _ _ _ Hfind' Hlen).
  do 3 f_equal.
  apply find_signer_section_Located in Hfind as (_ & Hle & _).
  rewrite <- Hlen. apply set_slice_same.
  - rewrite set_slice_length by lia. lia.
  - apply set_slice_slice. lia.
Qed.

Lemma update_single_file_idempotent_witness :
  let data := ["x"]%byte ++ signer_pattern ++ replicate 120 x00 in
  let new_record := signer_pattern ++ replicate 117 "1"%byte in
  let out := ["x"]%byte ++ new_record ++ replicate 3 x00 in
  UpdateSigner.update_single_file 0 (Some out) (Some new_record)
    None None None false
  = Return {| UpdateSigner.success := true; UpdateSigner.written := Some out |}.
Proof.
  intros data new_record out.
  apply (update_single_file_idempotent 0 data 1 (slice data 1 129)
           new_record out None).
  - reflexivity.
  - reflexivity.
  - by eexists.
  - reflexivity.
Defined.

(** X17.  The record that [extract_parameters] saves from a file can be put
    back: [update_single_file] on the same file with the saved record
    succeeds and writes the bytes the file already had. *)
Theorem extract_then_update (fuel : nat) (data sd : bytes)
    (output_json : option bool) (preferred_model : option str) :
  ExtractParams.signer_written
    (ExtractParams.extract_parameters (Some data) output_json (Some true))
  = Some sd ->
  UpdateSigner.update_single_file fuel (Some data) (Some sd)
    None None preferred_model false
  = Return {| UpdateSigner.success := true;
              UpdateSigner.written := Some data |}.
Proof.
  unfold ExtractParams.extract_parameters.
  rewrite find_signer_section_same.
  destruct (UpdateSigner.find_signer_section (Some data))
    as [pos sd'| | | |] eqn:Efind; try done.
  destruct (find_signer_section_truthy _ _ _ Efind) as [Hlen Hsd].
  rewrite Hsd, extract_parse_unfold, Hlen. cbn [Nat.ltb Nat.leb].
  change (128 <? 128) with false. cbn [orb].
  intros Hw.
  assert (sd' = sd) as ->
    by (destruct output_json as [[]|]; cbn in Hw; congruence).
  rewrite (update_single_file_writes_patch _ _ _ _ _ _ Efind Hlen).
  do 3 f_equal.
  apply find_signer_section_Located in Efind as (_ & Hle & Hslice).
  rewrite <- Hlen. apply set_slice_same; [lia|]. by rewrite Hlen.
Qed.

Lemma extract_then_update_witness :
  let data := ["x"]%byte ++ signer_pattern ++ replicate 120 x00 in
  UpdateSigner.update_single_file 0 (Some data) (Some (slice data 1 129))
    None None None false
  = Return {| UpdateSigner.success := true;
              UpdateSigner.written := Some data |}.
Proof.
  intros data.
  apply (extract_then_update 0 data (slice data 1 129) None None).
  reflexivity.
Defined.

(** ** extract_parameters and main of extract_params.py *)

(** X18.  The extraction script ends with status 0 or 1, and with 0 exactly
    when the image exists, holds ["SignerVer02"] with 128 bytes from its
    first occurrence on, and no output file failed to be written.  A record
    file is written only by a run that ends with 0 and holds the record
    found; a JSON file can be left by a run that fails afterwards, and holds
    the fields of the record found. *)
Theorem extract_main_exit_status (image : option bytes)
    (output_json output_signer : option bool) :
  let '(code, r) := ExtractParams.main image output_json output_signer in
  (code = 0 <->
   (exists data pos,
       image = Some data
       /\ first_occurrence signer_pattern data pos
       /\ pos + 128 <= length data)
   /\ output_json <> Some false /\ output_signer <> Some false)
  /\ (code = 0 \/ code = 1)
  /\ (code = 0 <-> ExtractParams.extracted r = true)
  /\ (forall sd, ExtractParams.signer_written r = Some sd ->
        code = 0 /\ output_signer = Some true
        /\ exists data pos, image = Some data
             /\ UpdateSigner.find_signer_section image = Located pos sd)
  /\ (forall md, ExtractParams.json_written r = Some md ->
        output_json = Some true
        /\ exists pos sd,
             UpdateSigner.find_signer_section image = Located pos sd
             /\ md = parse_fields sd).
Proof.
  destruct image as [data|]; cbn [ExtractParams.main].
  2:{ cbn. split_and!.
      - split; [done|]. by intros [(? & ? & ? & _) _].
      - by right.
      - done.
      - done.
      - done. }
  unfold ExtractParams.extract_parameters.
  rewrite find_signer_section_same.
  destruct (UpdateSigner.find_signer_section (Some data))
    as [pos sd| | | |] eqn:Efind.
  2-5: cbn; split_and!;
       [ split; [done|]; intros [(d & p & [= <-] & Hfirst & Hle) _];
         assert (UpdateSigner.find_signer_section (Some data)
                 = Located p (slice data p (p + 128))) as Hl
           by (by apply find_signer_section_Located);
         by rewrite Efind in Hl
       | by right | done | done | done ].
  destruct (find_signer_section_truthy _ _ _ Efind) as [Hlen Hsd].
  rewrite Hsd, extract_parse_unfold, Hlen.
  change (128 <? 128) with false. cbn [orb].
  pose proof Efind as Hloc.
  apply find_signer_section_Located in Hloc as (Hfirst & Hle & Hslice).
  assert (exists d p, Some data = Some d /\ first_occurrence signer_pattern d p
                      /\ p + 128 <= length d) as Hex
    by (by exists data, pos).
  destruct output_json as [[]|], output_signer as [[]|]; cbn;
    (split_and!;
     [ split; [intros H; first [discriminate H | split_and!; done]
              | intros (_ & H1 & H2); done]
     | (by left) || (by right)
     | done
     | intros sd' H;
       first [discriminate H
             | injection H as <-; split_and!; try done; by exists data, pos]
     | intros md H;
       first [discriminate H
             | injection H as <-; split; [done|]; by exists pos, sd] ]).
Qed.

(** ** detect_device_models_in_file *)

Lemma run_length_spec (p : byte -> bool) (limit : nat) (s : bytes) :
  let k := UpdateSigner.run_length p limit s in
  k <= limit /\ k <= length s /\ forallb p (take k s) = true.
Proof.
  revert s. induction limit as [|limit IH]; intros s;
    [destruct s; cbn; split_and!; (done || lia)|].
  destruct s as [|b s]; [cbn; split_and!; (done || lia)|].
  cbn [UpdateSigner.run_length].
  destruct (p b) eqn:Eb; [|cbn; lia].
  destruct (IH s) as (H1 & H2 & H3). cbn [take forallb length].
  rewrite Eb, H3. split_and!; (done || lia).
Qed.

Lemma match_model_shape (s : bytes) (n : nat) :
  UpdateSigner.match_model s = Some n ->
  model_shape (take n s) = true /\ n <= length s.
Proof.
  unfold UpdateSigner.match_model.
  destruct s as [|c0 [|c1 [|c2 [|c3 [|c4 [|c5 rest]]]]]]; try done.
  destruct (_ && _) eqn:Ehead; [|done].
  pose proof (run_length_spec UpdateSigner.is_upper_or_digit 12 rest) as Hk.
  cbv zeta in Hk |- *. revert Hk.
  generalize (UpdateSigner.run_length UpdateSigner.is_upper_or_digit 12 rest).
  intros k (H1 & H2 & H3).
  destruct (6 <=? k) eqn:E6; [|done]. intros [= <-].
  cbn [Nat.add take model_shape length]. rewrite Ehead, H3.
  rewrite length_take, Nat.min_l by done. rewrite E6.
  split; [|lia]. rewrite andb_true_r. by apply Nat.leb_le.
Qed.

Lemma findall_from_sound (s m : bytes) :
  forall skip,
    m ∈ UpdateSigner.findall_from skip s ->
    model_shape m = true /\ exists j, occurs_at m s j = true.
Proof.
  induction s as [|b s IH]; intros skip; cbn [UpdateSigner.findall_from].
  { by intros ?%elem_of_nil. }
  assert (forall k, m ∈ UpdateSigner.findall_from k s ->
            model_shape m = true /\ exists j, occurs_at m (b :: s) j = true)
    as Hrest.
  { intros k Hin. destruct (IH k Hin) as [Hs [j Hj]]. split; [done|].
    by exists (S j). }
  destruct skip as [|k]; [|apply Hrest].
  destruct (UpdateSigner.match_model (b :: s)) as [n|] eqn:E; [|apply Hrest].
  intros [->|Hin]%elem_of_cons; [|by eapply Hrest].
  apply match_model_shape in E as [Hshape Hn]. split; [done|].
  exists 0. unfold occurs_at. rewrite drop_0. apply startswith_prefix.
  apply prefix_take.
Qed.

Lemma is_upper_or_digit_range (b : byte) :
  UpdateSigner.is_upper_or_digit b = true ->
  (48 <= Byte.to_N b <= 90)%N.
Proof.
  unfold UpdateSigner.is_upper_or_digit, UpdateSigner.is_upper,
    UpdateSigner.is_digit.
  intros [[H1 H2]%andb_true_iff|[H1 H2]%andb_true_iff]%orb_true_iff;
    apply N.leb_le in H1, H2; lia.
Qed.

Lemma model_shape_chars (m : bytes) :
  model_shape m = true ->
  12 <= length m <= 18
  /\ Forall (fun b => UpdateSigner.is_upper_or_digit b = true) m.
Proof.
  unfold model_shape.
  destruct m as [|c0 [|c1 [|c2 [|c3 [|c4 [|c5 rest]]]]]]; try done.
  rewrite !andb_true_iff.
  intros ((((((((H0 & H1) & H2) & H3) & H4) & H5) & Hlo) & Hhi) & Hall).
  apply Nat.leb_le in Hlo, Hhi. split; [cbn [length]; lia|].
  unfold UpdateSigner.is_upper_or_digit.
  repeat (constructor; [by rewrite ?H0, ?H1, ?H2, ?H3, ?H4, ?H5, ?orb_true_r|]).
  apply Forall_forall. intros b Hb.
  rewrite forallb_forall in Hall. apply Hall. by apply list_elem_of_In.
Qed.

Lemma byte_of_N_to_N (b : byte) : byte_of_N (Byte.to_N b) = b.
Proof.
  unfold byte_of_N. pose proof (Byte.to_N_bounded b) as Hb.
  rewrite N.mod_small by lia. by rewrite Byte.of_to_N.
Qed.

Lemma ascii_bytes_str_of_bytes (m : bytes) : ascii_bytes (str_of_bytes m) = m.
Proof.
  unfold ascii_bytes, str_of_bytes. rewrite map_map.
  induction m as [|b m IH]; [done|]. cbn [map]. by rewrite byte_of_N_to_N, IH.
Qed.

Lemma model_shape_decode (m : bytes) :
  model_shape m = true ->
  decode_ascii_ignore m = str_of_bytes m
  /\ Forall (fun c => (c < 128)%N) (str_of_bytes m).
Proof.
  intros [_ Hall]%model_shape_chars. split.
  - unfold decode_ascii_ignore, str_of_bytes. f_equal. apply filter_all.
    eapply Forall_impl; [done|]. intros b Hb%is_upper_or_digit_range.
    unfold is_ascii. apply N.ltb_lt. lia.
  - unfold str_of_bytes. apply Forall_map.
    eapply Forall_impl; [done|]. intros b Hb%is_upper_or_digit_range.
    cbn. lia.
Qed.

Lemma models_of_sound (data : bytes) (x : str) :
  x ∈ UpdateSigner.models_of data ->
  model_shape (ascii_bytes x) = true
  /\ Forall (fun c => (c < 128)%N) x
  /\ exists p, occurs_at (ascii_bytes x) data p = true.
Proof.
  intros (m & Hm & ->)%models_of_elem_of.
  apply findall_from_sound in Hm as [Hshape Hocc].
  destruct (model_shape_decode m Hshape) as [-> Hascii].
  by rewrite ascii_bytes_str_of_bytes.
Qed.

Lemma detect_elem_of (file : option bytes) (preferred : option str) (x : str) :
  x ∈ UpdateSigner.detect_device_models_in_file file preferred ->
  exists data, file = Some data /\ x ∈ UpdateSigner.models_of data.
Proof.
  destruct file as [data|]; cbn [UpdateSigner.detect_device_models_in_file];
    [|by intros ?%elem_of_nil].
  intros Hin. exists data. split; [done|].
  assert (forall o, UpdateSigner.truthy_in o (UpdateSigner.models_of data)
                    = true ->
                    x ∈ UpdateSigner.the_str o
                        :: UpdateSigner.others (UpdateSigner.the_str o)
                             (UpdateSigner.models_of data) ->
                    x ∈ UpdateSigner.models_of data) as Hbranch.
  { intros [s|]; [|done]. cbn [UpdateSigner.truthy_in UpdateSigner.the_str].
    intros [_ Hs%str_in_elem_of]%andb_true_iff [->|Hx]%elem_of_cons; [done|].
    by apply others_elem_of in Hx as [Hx _]. }
  destruct (UpdateSigner.truthy_in preferred _) eqn:E1; [by eapply Hbranch|].
  destruct (UpdateSigner.truthy_in (UpdateSigner.signer_model_of _) _) eqn:E2;
    [by eapply Hbranch|].
  destruct (negb _); [done|]. by apply elem_of_nil in Hin.
Qed.

(** X19.  Every model returned by [detect_device_models_in_file] has the
    form [[A-Z][0-9]{3}[A-Z]{2}[A-Z0-9]{6,12}], so 12 to 18 characters from
    ['0'..'Z'], and its ASCII bytes are in the file. *)
Theorem detected_model_occurs (file : option bytes) (preferred : option str)
    (x : str) :
  x ∈ UpdateSigner.detect_device_models_in_file file preferred ->
  model_shape (ascii_bytes x) = true
  /\ 12 <= length x <= 18
  /\ Forall (fun c => (48 <= c <= 90)%N) x
  /\ exists data p,
       file = Some data /\ occurs_at (ascii_bytes x) data p = true.
Proof.
  intros (data & -> & Hx)%detect_elem_of.
  apply models_of_elem_of in Hx as (m & Hm & ->).
  apply findall_from_sound in Hm as [Hshape [p Hocc]].
  destruct (model_shape_decode m Hshape) as [-> _].
  rewrite ascii_bytes_str_of_bytes.
  destruct (model_shape_chars m Hshape) as [Hlen Hall].
  split_and!; try done.
  - unfold str_of_bytes. rewrite length_map. lia.
  - unfold str_of_bytes. rewrite length_map. lia.
  - unfold str_of_bytes. apply Forall_map.
    eapply Forall_impl; [done|]. by intros b Hb%is_upper_or_digit_range.
  - by exists data, p.
Qed.

Lemma detected_model_occurs_witness :
  let data := ["x"; "F"; "7"; "1"; "1"; "B"; "X"; "X"; "S"; "8"; "H"; "X";
               "F"; "2"; "."]%byte in
  let x := [70; 55; 49; 49; 66; 88; 88; 83; 56; 72; 88; 70; 50]%N in
  model_shape (ascii_bytes x) = true
  /\ 12 <= length x <= 18
  /\ Forall (fun c => (48 <= c <= 90)%N) x
  /\ exists data' p,
       Some data = Some data' /\ occurs_at (ascii_bytes x) data' p = true.
Proof.
  intros data x.
  apply (detected_model_occurs (Some data) None x).
  vm_compute. left.
Defined.

(** X20.  The test [10 <= len(m) <= 20] never removes a match of the
    pattern, and decoding a match drops no byte: the candidates are the
    matches themselves, sorted and without repeats. *)
Theorem length_filter_keeps_every_match (data : bytes) :
  List.filter (fun m => (10 <=? length m) && (length m <=? 20))
    (UpdateSigner.findall data)
  = UpdateSigner.findall data
  /\ UpdateSigner.models_of data
     = sorted_set (map str_of_bytes (UpdateSigner.findall data)).
Proof.
  assert (List.filter (fun m => (10 <=? length m) && (length m <=? 20))
            (UpdateSigner.findall data) = UpdateSigner.findall data) as Hf.
  { apply filter_all. apply Forall_forall. intros m Hm.
    apply findall_from_sound in Hm as [[Hlen _]%model_shape_chars _].
    apply andb_true_iff. split; apply Nat.leb_le; lia. }
  split; [done|]. unfold UpdateSigner.models_of. rewrite Hf. f_equal.
  apply map_ext_in. intros m Hm. apply list_elem_of_In in Hm.
  apply findall_from_sound in Hm as [Hshape _].
  by apply model_shape_decode.
Qed.

Lemma sorted_NoDup (l : list str) : StronglySorted str_lt l -> NoDup l.
Proof.
  induction 1 as [|x l Hs IH Hall]; constructor; [|done].
  intros Hin. rewrite Forall_forall in Hall.
  by apply (str_lt_irrefl x), Hall.
Qed.

Lemma others_perm (h : str) (l : list str) :
  NoDup l -> h ∈ l -> h :: UpdateSigner.others h l ≡ₚ l.
Proof.
  induction 1 as [|x l Hx Hnd IH]; [by intros ?%elem_of_nil|].
  intros Hin. unfold UpdateSigner.others. cbn [List.filter].
  destruct (str_eqb x h) eqn:E; cbn [negb].
  - apply str_eqb_eq in E. subst x.
    fold (UpdateSigner.others h l). by rewrite others_not_in.
  - apply str_eqb_neq in E. fold (UpdateSigner.others h l).
    apply elem_of_cons in Hin as [->|Hin]; [done|].
    rewrite Permutation_swap. by rewrite IH.
Qed.

(** X21.  The result of [detect_device_models_in_file] on a readable file
    is a rearrangement of the candidate list without repeats: the preferred
    model and the model of the record only change the order. *)
Theorem detect_reorders_candidates (data : bytes) (preferred : option str) :
  UpdateSigner.detect_device_models_in_file (Some data) preferred
  ≡ₚ UpdateSigner.models_of data
  /\ NoDup (UpdateSigner.detect_device_models_in_file (Some data) preferred).
Proof.
  assert (NoDup (UpdateSigner.models_of data)) as Hnd
    by apply sorted_NoDup, sorted_set_sorted.
  assert (UpdateSigner.detect_device_models_in_file (Some data) preferred
          ≡ₚ UpdateSigner.models_of data) as Hperm.
  { cbn [UpdateSigner.detect_device_models_in_file].
    assert (forall o, UpdateSigner.truthy_in o (UpdateSigner.models_of data)
                      = true ->
                      UpdateSigner.the_str o
                        :: UpdateSigner.others (UpdateSigner.the_str o)
                             (UpdateSigner.models_of data)
                      ≡ₚ UpdateSigner.models_of data) as Hbranch.
    { intros [s|]; [|done]. cbn [UpdateSigner.truthy_in UpdateSigner.the_str].
      intros [_ Hs%str_in_elem_of]%andb_true_iff. by apply others_perm. }
    destruct (UpdateSigner.truthy_in preferred _) eqn:E1; [by apply Hbranch|].
    destruct (UpdateSigner.truthy_in (UpdateSigner.signer_model_of _) _) eqn:E2;
      [by apply Hbranch|].
    by destruct (UpdateSigner.models_of data). }
  split; [done|]. by rewrite Hperm.
Qed.

(** ** main with [--auto-detect-old-model] *)

Lemma replace_all_found (fuel : nat) (data : bytes) (old_model new_model : str)
    (p : nat) :
  old_model <> [] -> new_model <> [] -> old_model <> new_model ->
  Forall (fun c => (c < 128)%N) old_model ->
  Forall (fun c => (c < 128)%N) new_model ->
  length old_model = length new_model ->
  occurs_at (ascii_bytes old_model) data p = true ->
  length data < fuel ->
  exists out n,
    UpdateSigner.replace_all_occurrences fuel data old_model new_model
    = Return (out, n)
    /\ 0 < n /\ length out = length data.
Proof.
  intros Ho Hn Hne Hao Han Hlen Hocc Hfuel.
  rewrite replace_all_ascii_fold by done.
  assert (length (ascii_bytes old_model) = length (ascii_bytes new_model))
    as Hla by (unfold ascii_bytes; by rewrite !length_map).
  pose proof (foldl_pass_length data
                (encodings (ascii_bytes old_model) (ascii_bytes new_model))
                (data, 0) eq_refl) as Hsize.
  rewrite foldl_pass_encodings in Hsize |- * by done.
  eexists _, _. split; [reflexivity|]. split; [|exact Hsize].
  pose proof (ascii_bytes_nonempty old_model Ho) as Hoa.
  destruct (matches data (ascii_bytes old_model)) as [|m ms] eqn:E.
  - by rewrite (proj1 (matches_nil data _ Hoa) E p) in Hocc.
  - cbn [length]. lia.
Qed.

(** X22.  [main] with [--auto-detect-old-model] and
    [--experimental-model-replace], without [--old-model] and
    [--signer-section]: when a model is detected and [--new-model] is a
    different ASCII string of the same length, the run ends with status 0 and
    has written the image, with content of the length it had. *)
Theorem main_auto_detect_replaces (fuel : nat) (data : bytes)
    (a : UpdateSigner.args) (new_m m : str) (rest : list str) :
  UpdateSigner.signer_section a = None ->
  UpdateSigner.old_model a = None ->
  UpdateSigner.auto_detect_old_model a = true ->
  UpdateSigner.experimental a = true ->
  UpdateSigner.new_model a = Some new_m ->
  UpdateSigner.detect_device_models_in_file (Some data)
    (UpdateSigner.preferred a) = m :: rest ->
  Forall (fun c => (c < 128)%N) new_m ->
  length new_m = length m ->
  new_m <> m ->
  length data < fuel ->
  exists out,
    UpdateSigner.main fuel (Some data) a = Return (0, Some out)
    /\ length out = length data.
Proof.
  intros Hsig Hold Hauto Hexp Hnew Hdet Han Hlen Hne Hfuel.
  assert (m ∈ UpdateSigner.detect_device_models_in_file (Some data)
                (UpdateSigner.preferred a)) as Hin by (rewrite Hdet; left).
  apply detect_elem_of in Hin as (d & [= <-] & Hin).
  pose proof (models_of_nonempty data) as Hnil.
  assert (m <> []) as Hm by (intros ->; done).
  assert (new_m <> []) as Hn by (intros ->; by destruct m).
  apply models_of_sound in Hin as (_ & Hao & p & Hocc).
  destruct (replace_all_found fuel data m new_m p)
    as (out & n & Hrep & Hpos & Hsize); try done.
  exists out. split; [|done].
  unfold UpdateSigner.main. rewrite Hsig, Hold, Hauto, Hexp, Hnew, Hdet.
  cbn [falsy_opt andb head]. apply falsy_false in Hn as Hfn. rewrite Hfn.
  rewrite andb_false_r.
  assert (UpdateSigner.model_step fuel data [] (Some new_m) (Some m) true
          = Return {| UpdateSigner.success := true;
                      UpdateSigner.written := Some out |}) as Hstep.
  { unfold UpdateSigner.model_step.
    cbn [UpdateSigner.the_str falsy_opt andb].
    apply falsy_false in Hm as Hfm. rewrite Hfm, Hfn.
    assert (str_eqb m new_m = false) as -> by (by apply str_eqb_neq).
    cbn [negb andb]. rewrite Hrep.
    apply Nat.ltb_lt in Hpos. by rewrite Hpos. }
  cbn [UpdateSigner.update_single_file].
  destruct (UpdateSigner.find_signer_section (Some data));
    rewrite ?andb_false_r, Hstep; done.
Qed.

Lemma main_auto_detect_replaces_witness :
  let data := ["x"; "F"; "7"; "1"; "1"; "B"; "X"; "X"; "S"; "8"; "H"; "X";
               "F"; "2"; "."]%byte in
  let a := {| UpdateSigner.signer_section := None;
              UpdateSigner.new_model := Some new_token;
              UpdateSigner.old_model := None;
              UpdateSigner.preferred := None;
              UpdateSigner.auto_detect_old_model := true;
              UpdateSigner.experimental := true |} in
  exists out,
    UpdateSigner.main 16 (Some data) a = Return (0, Some out)
    /\ length out = length data.
Proof.
  intros data a.
  apply (main_auto_detect_replaces 16 data a new_token old_token []);
    try reflexivity.
  - repeat (constructor; [reflexivity|]). constructor.
  - discriminate.
  - simpl. lia.
Defined.

(** ** The record and the model in one run *)

(** X23.  When a record and a model replacement are both asked for,
    [update_single_file] replaces the record first and runs
    [replace_all_occurrences] on the patched buffer; it writes the result and
    returns [True] also when the count is 0. *)
Theorem update_single_file_patch_then_replace (fuel : nat) (data : bytes)
    (pos : nat) (sd new_record : bytes) (old_model new_model : str)
    (preferred_model : option str) :
  UpdateSigner.find_signer_section (Some data) = Located pos sd ->
  length new_record = 128 ->
  old_model <> [] -> new_model <> [] -> old_model <> new_model ->
  Forall (fun c => (c < 128)%N) old_model ->
  Forall (fun c => (c < 128)%N) new_model ->
  length data < fuel ->
  exists out n,
    UpdateSigner.replace_all_occurrences fuel
      (set_slice data pos (pos + 128) new_record) old_model new_model
    = Return (out, n)
    /\ UpdateSigner.update_single_file fuel (Some data) (Some new_record)
         (Some new_model) (Some old_model) preferred_model true
       = Return {| UpdateSigner.success := true;
                   UpdateSigner.written := Some out |}.
Proof.
  intros Hfind Hlen Ho Hn Hne Hao Han Hfuel.
  pose proof Hfind as (_ & Hle & _)%find_signer_section_Located.
  destruct (find_signer_section_truthy _ _ _ Hfind) as [_ Hsd].
  assert (length (set_slice data pos (pos + 128) new_record) = length data)
    as Hsize by (rewrite <- Hlen; apply set_slice_length; lia).
  pose proof (replace_all_outcome fuel
                (set_slice data pos (pos + 128) new_record)
                old_model new_model) as Hout.
  rewrite Hsize in Hout. specialize (Hout Hfuel).
  destruct (UpdateSigner.replace_all_occurrences fuel
              (set_slice data pos (pos + 128) new_record) old_model new_model)
    as [[out n]|e|] eqn:Erep; [| |done].
  2:{ destruct Hout as [_ Hex]. exfalso.
      apply Exists_app in Hex as [Hex|Hex]; apply Exists_exists in Hex
        as (c & Hc & Hge).
      - rewrite Forall_forall in Hao. specialize (Hao c Hc). lia.
      - rewrite Forall_forall in Han. specialize (Han c Hc). lia. }
  exists out, n. split; [done|].
  cbn [UpdateSigner.update_single_file]. rewrite Hfind, Hsd.
  cbn [falsy_opt default]. unfold id.
  assert (falsy new_record = false) as ->
    by (apply falsy_false; intros ->; done).
  cbn [negb andb]. unfold UpdateSigner.patch. rewrite Hlen.
  cbn [Nat.eqb negb]. change (128 =? 128) with true. cbn [negb].
  unfold UpdateSigner.model_step. cbn [UpdateSigner.the_str falsy_opt andb].
  apply falsy_false in Ho, Hn. rewrite Ho, Hn.
  apply str_eqb_neq in Hne. rewrite Hne. cbn [negb andb].
  rewrite Erep. unfold UpdateSigner.write_back.
  by destruct (0 <? n).
Qed.

Lemma update_single_file_patch_then_replace_witness :
  let data := ["A"]%byte ++ signer_pattern ++ replicate 117 x00 in
  let new_record := signer_pattern ++ replicate 117 "A"%byte in
  exists out n,
    UpdateSigner.replace_all_occurrences 130
      (set_slice data 1 (1 + 128) new_record) [65%N] [66%N]
    = Return (out, n)
    /\ UpdateSigner.update_single_file 130 (Some data) (Some new_record)
         (Some [66%N]) (Some [65%N]) None true
       = Return {| UpdateSigner.success := true;
                   UpdateSigner.written := Some out |}.
Proof.
  intros data new_record.
  apply (update_single_file_patch_then_replace 130 data 1
           (slice data 1 129) new_record [65%N] [66%N] None);
    try reflexivity; try discriminate; try (repeat constructor).
Defined.
